(** * AccessiScan: the audit pipeline of [src/app/api/scan/route.js]

    A shallow embedding of the scan route's helpers (violation enrichment,
    remediation prioritisation, report building, validation), of the
    response assembly and error branch of [POST], and of the admission
    controller the route calls, followed by the properties of the written
    specification stated over these definitions. *)

From Stdlib Require Import ZArith String Ascii DecimalString List Permutation.
From stdpp Require Import gmap strings list fin_maps sorting.

Set Warnings "-register-all".
Local Open Scope string_scope.

(** ** JavaScript values

    The data that reaches the route is JSON produced by the scan
    collaborator, so a value is a JSON value or [undefined].  Numbers are
    the integer-valued ones (array lengths, scores, timestamps); objects
    are association lists from property names to values, read left to
    right. *)
Module JS.

Inductive jsval : Type :=
| JUndef
| JNull
| JBool (b : bool)
| JNum (n : Z)
| JStr (s : string)
| JArr (items : list jsval)
| JObj (props : list (string * jsval)).

(** A thrown value.  The route looks at it only through
    [error.message], so an [Error] is represented by an object that has
    its message; [null] and [undefined] can be thrown as well. *)
Definition exn : Type := jsval.

(** An [Error] with the given message, or a thrown object without
    one. *)
Definition Exn (message : option string) : exn :=
  match message with
  | Some m => JObj [("message", JStr m)]
  | None => JObj []
  end.

(** [TypeError]s raised by the language itself; the wording is the
    engine's and nothing below depends on it. *)
Definition TypeError (what : string) : exn := Exn (Some what).

Inductive result (A : Type) : Type :=
| Ok (a : A)
| Err (e : exn).
Arguments Ok {A} a.
Arguments Err {A} e.

#[global] Instance result_ret : MRet result := λ A a, Ok a.
#[global] Instance result_bind : MBind result := λ A B f m,
  match m with
  | Ok a => f a
  | Err e => Err e
  end.

(** ToBoolean. *)
Definition truthy (v : jsval) : bool :=
  match v with
  | JUndef | JNull => false
  | JBool b => b
  | JNum n => negb (n =? 0)%Z
  | JStr s => negb (String.eqb s "")
  | JArr _ | JObj _ => true
  end.

Definition nullish (v : jsval) : bool :=
  match v with
  | JUndef | JNull => true
  | _ => false
  end.

Definition is_record (v : jsval) : bool :=
  match v with
  | JObj _ => true
  | _ => false
  end.

Fixpoint assoc (k : string) (ps : list (string * jsval)) : jsval :=
  match ps with
  | [] => JUndef
  | (k', v) :: ps' => if String.eqb k k' then v else assoc k ps'
  end.

(** [get v k] is [v.k] for a [v] that is not nullish.  None of the names
    the route reads ([id], [ruleId], [description], [help], [message],
    [impact], [severity], [nodes], [targets], [tags], [raw], [wcag],
    [aiExplanation]) is a built-in property of a string, number, boolean
    or array, so on those the read gives [undefined]. *)
Definition get (v : jsval) (k : string) : jsval :=
  match v with
  | JObj ps => assoc k ps
  | _ => JUndef
  end.

(** [prop v k] is the expression [v.k]: a [TypeError] on [null] and
    [undefined]. *)
Definition prop (v : jsval) (k : string) : result jsval :=
  if nullish v then Err (TypeError ("Cannot read properties of null or undefined: " +:+ k))
  else Ok (get v k).

(** [a || b], with [b] evaluated only when [a] is falsy. *)
Definition or_else (a b : result jsval) : result jsval :=
  x ← a; if truthy x then Ok x else b.

(** [a && b]. *)
Definition and_then (a b : result jsval) : result jsval :=
  x ← a; if truthy x then b else Ok x.

Fixpoint set_assoc (k : string) (v : jsval) (ps : list (string * jsval))
  : list (string * jsval) :=
  match ps with
  | [] => [(k, v)]
  | (k', v') :: ps' =>
      if String.eqb k k' then (k, v) :: ps' else (k', v') :: set_assoc k v ps'
  end.

(** [{...o, k: v}] for an object [o]; spreading a primitive or an array
    copies no named property the route reads. *)
Definition spread_with (o : jsval) (k : string) (v : jsval) : jsval :=
  match o with
  | JObj ps => JObj (set_assoc k v ps)
  | _ => JObj [(k, v)]
  end.

(** Decimal rendering of a number in a template literal. *)
Definition decimal (n : nat) : string :=
  NilEmpty.string_of_uint (Nat.to_uint n).

Definition decimalZ (n : Z) : string :=
  NilZero.string_of_int (Z.to_int n).

Definition lower_ascii (c : ascii) : ascii :=
  let n := nat_of_ascii c in
  if (65 <=? n)%nat && (n <=? 90)%nat then ascii_of_nat (n + 32) else c.

(** [String.prototype.toLowerCase] on the ASCII letters; the bytes of
    other characters are kept, which agrees with JavaScript wherever the
    result is compared with an ASCII word without the letter k. *)
Fixpoint toLowerCase (s : string) : string :=
  match s with
  | EmptyString => EmptyString
  | String c s' => String (lower_ascii c) (toLowerCase s')
  end.

(** [String.prototype.includes]. *)
Fixpoint includes (s needle : string) : bool :=
  String.prefix needle s ||
  match s with
  | EmptyString => false
  | String _ s' => includes s' needle
  end.

(** ToString, as a template literal or a regular expression applies it
    to its argument.  An object with a [toString] of its own, which in
    JSON data is never a function, cannot be converted ([valueOf] answers
    the object itself): a [TypeError].  An array joins the string forms
    of its elements, the empty string for [null] and [undefined]. *)
Fixpoint toString (v : jsval) : result string :=
  match v with
  | JUndef => Ok "undefined"
  | JNull => Ok "null"
  | JBool true => Ok "true"
  | JBool false => Ok "false"
  | JNum n => Ok (decimalZ n)
  | JStr s => Ok s
  | JArr items =>
      parts ← (fix each (l : list jsval) : result (list string) :=
                 match l with
                 | [] => Ok []
                 | x :: l' =>
                     s ← match x with
                         | JUndef | JNull => Ok ""
                         | _ => toString x
                         end;
                     ss ← each l';
                     Ok (s :: ss)
                 end) items;
      Ok (String.concat "," parts)
  | JObj props =>
      if existsb (λ p, String.eqb p.1 "toString") props
      then Err (TypeError "Cannot convert object to primitive value")
      else Ok "[object Object]"
  end.

(** [/^p/i.test(s)] for an ASCII word [p]. *)
Definition starts_with_ci (p s : string) : bool :=
  String.prefix (toLowerCase p) (toLowerCase (String.substring 0 (String.length p) s)).

Section mapi.
Context {A B : Type} (f : nat → A → result B).

(** [Array.prototype.map] with a callback that may throw: the first
    throw aborts the whole map. *)
Fixpoint mapi_from (i : nat) (l : list A) : result (list B) :=
  match l with
  | [] => Ok []
  | x :: l' =>
      y ← f i x;
      ys ← mapi_from (S i) l';
      Ok (y :: ys)
  end.

Definition mapi (l : list A) : result (list B) := mapi_from 0 l.
End mapi.

Section filterM.
Context {A : Type} (test : A → result bool).

(** [Array.prototype.filter] with a test that may throw. *)
Fixpoint filterM (l : list A) : result (list A) :=
  match l with
  | [] => Ok []
  | x :: l' =>
      keep ← test x;
      rest ← filterM l';
      Ok (if keep : bool then x :: rest else rest)
  end.
End filterM.

End JS.

Import JS.

Notation "a ||> b" := (or_else a b) (at level 51, right associativity).
Notation "a &&> b" := (and_then a b) (at level 41, right associativity).

(** ** The helpers of the route *)
Module Route.

(** The test of line 19:
    [/^wcag|^WCAG/i.test(t) || /^wcag/.test(t)]. *)
Definition isWcagTag (t : jsval) : result bool :=
  s ← toString t;
  Ok ((starts_with_ci "wcag" s || starts_with_ci "WCAG" s) || String.prefix "wcag" s).

(** [(v.tags || []).filter(...)]: only an array has [filter], and a
    throw of the test ends the filter. *)
Definition filterTags (tags : jsval) : result jsval :=
  match tags with
  | JArr items => kept ← filterM isWcagTag items; Ok (JArr kept)
  | _ => Err (TypeError "(v.tags || []).filter is not a function")
  end.

(** The callback of the [map] in the [try] block, lines 14-21. *)
Definition enrichOne (idx : nat) (v : jsval) : result jsval :=
  id ← prop v "id" ||> prop v "ruleId" ||> Ok (JStr ("violation-" +:+ decimal idx));
  description ← prop v "description" ||> prop v "help" ||> prop v "message" ||> Ok (JStr "");
  impact ← prop v "impact" ||> prop v "severity" ||> Ok (JStr "moderate");
  nodes ← prop v "nodes" ||> prop v "targets" ||> Ok (JArr []);
  tags ← prop v "tags" ||> Ok (JArr []);
  wcag ← filterTags tags;
  Ok (JObj [("id", id); ("description", description); ("impact", impact);
            ("nodes", nodes); ("wcag", wcag); ("raw", v)]).

(** The callback of the [map] in the [catch] block, line 24. *)
Definition enrichMinimal (idx : nat) (v : jsval) : result jsval :=
  id ← prop v "id" ||> Ok (JStr ("violation-" +:+ decimal idx));
  Ok (JObj [("id", id); ("raw", v)]).

(** [enrichViolations], lines 12-26.  Logging has no effect on the
    result. *)
Definition enrichViolations (violations : list jsval) : result (list jsval) :=
  match mapi enrichOne violations with
  | Ok enriched => Ok enriched
  | Err _ => mapi enrichMinimal violations
  end.

(** *** Prioritisation, lines 31-38 *)

(** What [weight[key]] finds.  [weight] is a plain object literal, so a
    key that is not its own is looked up on [Object.prototype]. *)
Inductive lookupResult : Type :=
| Own (w : Z)
| Inherited (name : string)
| Absent.

Definition weight : list (string * Z) :=
  [("critical", 5); ("serious", 4); ("high", 4); ("moderate", 3);
   ("low", 2); ("minor", 1)]%Z.

Definition objectPrototype : list string :=
  ["constructor"; "__proto__"; "hasOwnProperty"; "isPrototypeOf";
   "propertyIsEnumerable"; "toLocaleString"; "toString"; "valueOf";
   "__defineGetter__"; "__defineSetter__"; "__lookupGetter__";
   "__lookupSetter__"].

Fixpoint ownWeight (key : string) (table : list (string * Z)) : option Z :=
  match table with
  | [] => None
  | (k, w) :: table' => if String.eqb key k then Some w else ownWeight key table'
  end.

Definition weightLookup (key : string) : lookupResult :=
  match ownWeight key weight with
  | Some w => Own w
  | None =>
      if existsb (String.eqb key) objectPrototype then Inherited key else Absent
  end.

(** [weight[key] || 2] as an operand of the subtraction: [None] is a
    value whose ToNumber is NaN (an inherited function or object). *)
Definition weightOrDefault (r : lookupResult) : option Z :=
  match r with
  | Own w => if (w =? 0)%Z then Some 2%Z else Some w
  | Inherited _ => None
  | Absent => Some 2%Z
  end.

(** [(a.impact || "").toLowerCase()]: only a string has the method. *)
Definition impactKey (a : jsval) : result string :=
  i ← prop a "impact" ||> Ok (JStr "");
  match i with
  | JStr s => Ok (toLowerCase s)
  | _ => Err (TypeError "(a.impact || '').toLowerCase is not a function")
  end.

(** The comparator of line 33; [None] is the answer NaN. *)
Definition compareImpact (a b : jsval) : result (option Z) :=
  ka ← impactKey a;
  kb ← impactKey b;
  match weightOrDefault (weightLookup ka), weightOrDefault (weightLookup kb) with
  | Some wa, Some wb => Ok (Some (wb - wa)%Z)
  | _, _ => Ok None
  end.

(** [Array.prototype.sort] with a comparator.  ECMAScript requires the
    sort to be stable, reads a NaN answer as +0 and lets a throw of the
    comparator end the sort; which pairs are compared is left to the
    engine.  Insertion from the right is one admissible order, and every
    admissible order gives the same array when the comparator is
    consistent. *)
Section sort.
Context {A : Type} (cmp : A → A → result (option Z)).

Definition positive_answer (c : option Z) : bool :=
  match c with
  | Some z => (0 <? z)%Z
  | None => false
  end.

Fixpoint insertBy (x : A) (sorted : list A) : result (list A) :=
  match sorted with
  | [] => Ok [x]
  | y :: ys =>
      c ← cmp x y;
      if positive_answer c then (r ← insertBy x ys; Ok (y :: r))
      else Ok (x :: y :: ys)
  end.

Fixpoint sortBy (l : list A) : result (list A) :=
  match l with
  | [] => Ok []
  | x :: xs => s ← sortBy xs; insertBy x s
  end.
End sort.

(** [enriched.slice().sort(...)] on the value of the array.  The
    elements are the objects enrichment builds; [sort] would move
    [undefined] elements to the end without comparing them, which does not
    arise here. *)
Definition prioritizeRemediations (enriched : list jsval) : result (list jsval) :=
  sortBy compareImpact enriched.

(** *** Collaborators

    [generateImprovementPlan], [generateSummary] and [explainIssue] are
    imported from the AI module; the first two are guarded by
    [typeof ... === "function"], so they may be absent.  A call may
    throw; the call of [explainIssue] is awaited, so that a rejected
    promise of its is a throw as well.  [geminiKey] says whether the key
    is configured and [isoNow] is what [new Date().toISOString()]
    answers. *)
Record Collaborators : Type := {
  generateImprovementPlan : option (jsval → result jsval);
  generateSummary : option (string → list jsval → result jsval);
  explainIssue : jsval → result jsval;
  geminiKey : bool;
  isoNow : string
}.

(** The fields of [fullScanResults] that [generateAuditReport] reads; a
    [timestamp] that is missing reads like the empty one, both are
    falsy. *)
Record FullScanResults : Type := {
  scan_url : string;
  violations : list jsval;
  timestamp : string;
  scan_requestId : string
}.

Record AuditReport : Type := {
  url : string;
  accessibilityScore : Z;
  detailedIssues : list jsval;
  summary : jsval;
  meta_scannedAt : string;
  meta_requestId : string
}.

Record ValidationResult : Type := {
  overallQuality : string;
  validationScore : Z;
  issues : list jsval;
  warnings : list string
}.

Record SanityCheck : Type := { passed : bool; notes : list string }.

Record IndustryComparison : Type := {
  comparison_url : string;
  recommendations : list string;
  expectedVariances : string;
  interpretationGuide : string
}.

Section builder.
Context (env : Collaborators).

(** The callback of the [map] of lines 50-58. *)
Definition issueOf (idx : nat) (v : jsval) : result jsval :=
  id ← prop v "id" ||> Ok (JStr ("issue-" +:+ decimal idx));
  description ← prop v "description" ||> prop v "help"
                ||> (prop v "raw" &&> (raw ← prop v "raw"; prop raw "description"))
                ||> Ok (JStr "");
  impact ← prop v "impact" ||> Ok (JStr "moderate");
  wcag ← prop v "wcag" ||> Ok (JArr []);
  nodes ← prop v "nodes" ||> Ok (JArr []);
  remediation ← match generateImprovementPlan env with
                | Some plan => plan v
                | None => Ok JNull
                end;
  raw ← prop v "raw" ||> Ok v;
  Ok (JObj [("id", id); ("description", description); ("impact", impact);
            ("wcag", wcag); ("nodes", nodes); ("remediation", remediation);
            ("raw", raw)]).

Definition summaryTemplate (totalViolations : nat) : string :=
  "Found " +:+ decimal totalViolations +:+ " accessibility issue(s).".

(** [generateAuditReport], lines 43-74. *)
Definition generateAuditReport (fullScanResults : FullScanResults)
  : result AuditReport :=
  let totalViolations := length (violations fullScanResults) in
  let score := Z.max 0 (Z.min 100 (100 - Z.of_nat totalViolations * 8)) in
  issues ← mapi issueOf (violations fullScanResults);
  summary ← match generateSummary env with
            | Some summarize => summarize (scan_url fullScanResults) issues
            | None => Ok (JStr (summaryTemplate totalViolations))
            end;
  Ok {| url := scan_url fullScanResults;
        accessibilityScore := score;
        detailedIssues := issues;
        summary := summary;
        meta_scannedAt := if String.eqb (timestamp fullScanResults) ""
                          then isoNow env
                          else timestamp fullScanResults;
        meta_requestId := scan_requestId fullScanResults |}.
End builder.

(** [validateAuditResults], lines 79-93.  The score of a report is the
    number computed at line 48, so the [typeof] guard of line 85 never
    adds a warning. *)
Definition validateAuditResults (auditReport : AuditReport) : result ValidationResult :=
  let issues := detailedIssues auditReport in
  let validationScore :=
    Z.max 0 (Z.min 100 (accessibilityScore auditReport - Z.of_nat (length issues) `div` 2)) in
  let overallQuality :=
    if (80 <=? validationScore)%Z then "good"
    else if (50 <=? validationScore)%Z then "fair" else "poor" in
  pairs ← mapi (λ _ i, id ← prop i "id"; impact ← prop i "impact";
                       Ok (JObj [("id", id); ("impact", impact)])) issues;
  Ok {| overallQuality := overallQuality;
        validationScore := validationScore;
        issues := pairs;
        warnings := [] |}.

(** [performSanityCheck], lines 98-101. *)
Definition performSanityCheck (auditReport : AuditReport) : SanityCheck :=
  let passed := (0 <=? accessibilityScore auditReport)%Z
                && (accessibilityScore auditReport <=? 100)%Z in
  {| passed := passed;
     notes := if passed then [] else ["accessibilityScore missing or out of range"] |}.

(** [generateIndustryComparison], lines 106-113. *)
Definition generateIndustryComparison (auditReport : AuditReport) : IndustryComparison :=
  {| comparison_url := url auditReport;
     recommendations := ["axe-core"; "WAVE"; "Lighthouse"];
     expectedVariances := "Different tools may surface additional or fewer issues; use multiple tools for coverage.";
     interpretationGuide := "Higher score = better accessibility. Focus on 'critical/serious' items first." |}.

(** *** Phase 5 and the response assembly of [POST], lines 241-324 *)

Section annotation.
Context (env : Collaborators).

(** The callback of lines 249-260: a failed explanation leaves the
    violation as it was, once the log line of line 257 has put
    [violation.id] into its template literal. *)
Definition annotate (violation : jsval) : result jsval :=
  match explainIssue env violation with
  | Ok explanation => Ok (spread_with violation "aiExplanation" explanation)
  | Err _ =>
      id ← prop violation "id";
      _ ← toString id;
      Ok violation
  end.

(** [enhancedWithAI], lines 241-265.  [Promise.all] keeps the order of
    its input and rejects when one of the callbacks does. *)
Definition enhanceWithAI (prioritized : list jsval) : result (list jsval) :=
  if geminiKey env && (0 <? length prioritized)%nat
  then annotated ← mapi (λ _ violation, annotate violation) (take 5 prioritized);
       Ok (annotated ++ drop 5 prioritized)%list
  else Ok prioritized.

(** [enhancedWithAI[idx]?.aiExplanation || undefined], line 290. *)
Definition explanationAt (enhancedWithAI : list jsval) (idx : nat) : jsval :=
  let entry := default JUndef (enhancedWithAI !! idx) in
  let found := if nullish entry then JUndef else get entry "aiExplanation" in
  if truthy found then found else JUndef.

(** The [detailedIssues] of the response, lines 288-291. *)
Definition mergeExplanations (issues enhancedWithAI : list jsval) : list jsval :=
  imap (λ idx issue,
          spread_with issue "aiExplanation" (explanationAt enhancedWithAI idx))
       issues.
End annotation.

(** The body of the 200 response (request metadata and timings left
    out). *)
Record ScanBody : Type := {
  auditReport : AuditReport;
  validation_quality : string;
  validation_score : Z;
  validation_sanityCheck : SanityCheck;
  validationIssues : list jsval;
  validationWarnings : list string;
  industryComparison : IndustryComparison
}.

(** Phases 2 to 5 of [POST], lines 185-324, from the violations the scan
    returned. *)
Definition audit (env : Collaborators) (pageUrl now requestId : string)
    (scanned : list jsval) : result ScanBody :=
  enrichedViolations ← enrichViolations scanned;
  prioritized ← prioritizeRemediations enrichedViolations;
  report ← generateAuditReport env
              {| scan_url := pageUrl; violations := enrichedViolations;
                 timestamp := now; scan_requestId := requestId |};
  validationResults ← validateAuditResults report;
  let sanityCheck := performSanityCheck report in
  let comparison := generateIndustryComparison report in
  enhancedWithAI ← enhanceWithAI env prioritized;
  Ok {| auditReport :=
          {| url := url report;
             accessibilityScore := accessibilityScore report;
             detailedIssues := mergeExplanations (detailedIssues report) enhancedWithAI;
             summary := summary report;
             meta_scannedAt := meta_scannedAt report;
             meta_requestId := meta_requestId report |};
        validation_quality := overallQuality validationResults;
        validation_score := validationScore validationResults;
        validation_sanityCheck := sanityCheck;
        validationIssues := issues validationResults;
        validationWarnings := warnings validationResults;
        industryComparison := comparison |}.

(** *** The [catch] branch of [POST], lines 326-356 *)

Definition timeoutMessage : string :=
  "The website took too long to load. Please try a different URL or a faster website.".
Definition notFoundMessage : string :=
  "Could not find that website. Please check the URL and try again.".
Definition refusedMessage : string :=
  "Connection refused. The website may be down or blocked.".
Definition networkMessage : string :=
  "Network error. Please check the URL and your internet connection.".

(** [error.message || "Failed to complete accessibility audit"], for a
    message that is a string or falsy. *)
Definition rawErrorMessage (error : exn) : string :=
  match get error "message" with
  | JStr m => if String.eqb m "" then "Failed to complete accessibility audit" else m
  | _ => "Failed to complete accessibility audit"
  end.

(** The [error] field of the 500 response, lines 336-346, for a thrown
    value whose message is a string or falsy. *)
Definition errorMessageOf (error : exn) : string :=
  let errorMessage := rawErrorMessage error in
  if includes errorMessage "timeout" || includes errorMessage "timed out"
  then timeoutMessage
  else if includes errorMessage "ERR_NAME_NOT_RESOLVED" || includes errorMessage "ENOTFOUND"
  then notFoundMessage
  else if includes errorMessage "ERR_CONNECTION_REFUSED"
  then refusedMessage
  else if includes errorMessage "net::ERR" || includes errorMessage "ERR::"
  then networkMessage
  else errorMessage.

(** [errorMessage.includes(needle)]: a substring test on a string, a
    membership test on an array, and no method at all on a number, a
    boolean or an object. *)
Definition messageIncludes (errorMessage : jsval) (needle : string) : result bool :=
  match errorMessage with
  | JStr s => Ok (includes s needle)
  | JArr items =>
      Ok (existsb (λ x, match x with
                        | JStr s => String.eqb s needle
                        | _ => false
                        end) items)
  | _ => Err (TypeError "errorMessage.includes is not a function")
  end.

(** [a || b] on two tests. *)
Definition either (a b : result bool) : result bool :=
  a ≫= λ x : bool, if x then Ok true else b.

(** [if (test) { errorMessage = text } else ...]. *)
Definition whenIncluded (test : result bool) (text : string) (otherwise : result jsval)
  : result jsval :=
  test ≫= λ found : bool, if found then Ok (JStr text) else otherwise.

(** Lines 336-346 on whatever [error.message] is. *)
Definition errorField (message : jsval) : result jsval :=
  let errorMessage :=
    if truthy message then message
    else JStr "Failed to complete accessibility audit" in
  whenIncluded (either (messageIncludes errorMessage "timeout")
                       (messageIncludes errorMessage "timed out"))
    timeoutMessage
  (whenIncluded (either (messageIncludes errorMessage "ERR_NAME_NOT_RESOLVED")
                        (messageIncludes errorMessage "ENOTFOUND"))
     notFoundMessage
  (whenIncluded (messageIncludes errorMessage "ERR_CONNECTION_REFUSED")
     refusedMessage
  (whenIncluded (either (messageIncludes errorMessage "net::ERR")
                        (messageIncludes errorMessage "ERR::"))
     networkMessage
  (Ok errorMessage)))).

(** The answers of the audit.  [ServerErrorWith] is the 500 whose
    [error] is not a string, and [Unhandled] stands for no answer at all:
    the [catch] branch has thrown itself and [POST] rejects. *)
Inductive Response : Type :=
| Success (body : ScanBody)
| TooManyRequests (retryAfter : Z)
| ServerError (error : string)
| ServerErrorWith (error : jsval)
| Unhandled (thrown : exn).

(** The [catch] branch, lines 326-356: [error.message] is read for the
    log line first, which throws on [null] and [undefined]. *)
Definition catchBranch (error : exn) : Response :=
  match message ← prop error "message"; errorField message with
  | Ok (JStr text) => ServerError text
  | Ok other => ServerErrorWith other
  | Err thrown => Unhandled thrown
  end.

(** [POST] once the request is admitted and its URL accepted: the scan
    either returns violations or throws; whatever is thrown in the
    [try] block ends in the [catch] branch. *)
Definition respond (env : Collaborators) (pageUrl now requestId : string)
    (scan : result (list jsval)) : Response :=
  match scanned ← scan; audit env pageUrl now requestId scanned with
  | Ok body => Success body
  | Err error => catchBranch error
  end.

End Route.

Import Route.

(** ** The admission controller *)
Module RateLimiter.

Record Config : Type := { limit : nat; window : Z }.

Record Decision : Type := { allowed : bool; retryAfterSeconds : Z }.

(** Modelled from the spec: [checkRateLimit] of [src/lib/rateLimiter.js]
    is imported by the route but is not among the sources.  Per client,
    the state keeps the timestamps (in seconds) of the admitted requests.
    On each call the timestamps older than the window are purged; if the
    count that remains is at or above the limit the call is rejected with
    the time until the oldest remaining timestamp expires, otherwise the
    current timestamp is recorded and the call admitted. *)
Definition purge (cfg : Config) (now : Z) (stamps : list Z) : list Z :=
  List.filter (λ t, (now - t <=? window cfg)%Z) stamps.

Definition oldest (stamps : list Z) : option Z :=
  match stamps with
  | [] => None
  | t :: ts => Some (foldr Z.min t ts)
  end.

Definition checkRateLimit (cfg : Config) (now : Z) (clientId : string)
    (state : gmap string (list Z)) : Decision * gmap string (list Z) :=
  let recent := purge cfg now (default [] (state !! clientId)) in
  if (limit cfg <=? length recent)%nat
  then ({| allowed := false;
           retryAfterSeconds :=
             match oldest recent with
             | Some t => (t + window cfg - now)%Z
             | None => window cfg
             end |},
        <[clientId := recent]> state)
  else ({| allowed := true; retryAfterSeconds := 0 |},
        <[clientId := (recent ++ [now])%list]> state).

(** A sequence of requests, each a client identifier and its arrival
    time, served in order. *)
Fixpoint serve (cfg : Config) (requests : list (string * Z))
    (state : gmap string (list Z)) : list Decision * gmap string (list Z) :=
  match requests with
  | [] => ([], state)
  | (clientId, now) :: requests' =>
      let '(d, state') := checkRateLimit cfg now clientId state in
      let '(ds, state'') := serve cfg requests' state' in
      (d :: ds, state'')
  end.

(** The gate of [POST], lines 136-146: a rejected request is answered
    with 429 and the retry hint (which the route reads as [retryAfter]),
    an admitted one goes on. *)
Definition gate (cfg : Config) (now : Z) (ip : string)
    (state : gmap string (list Z)) : option Response * gmap string (list Z) :=
  let '(rateLimitResult, state') := checkRateLimit cfg now ip state in
  if allowed rateLimitResult then (None, state')
  else (Some (TooManyRequests (retryAfterSeconds rateLimitResult)), state').

(** [POST]: the gate, then the audit.  The request is taken to carry a
    URL that passes the checks of lines 148-177. *)
Definition POST (cfg : Config) (env : Collaborators) (clock : Z) (ip : string)
    (pageUrl now requestId : string) (scan : result (list jsval))
    (state : gmap string (list Z)) : Response * gmap string (list Z) :=
  match gate cfg clock ip state with
  | (Some rejection, state') => (rejection, state')
  | (None, state') => (respond env pageUrl now requestId scan, state')
  end.

End RateLimiter.

(** ** Arrays as shared objects

    [enrichedViolations] is one array object, read by the prioritiser
    and afterwards by the report builder.  Here a variable holds a
    reference into a store of arrays, [slice] allocates and [sort]
    overwrites the array it is called on. *)
Module Store.

Definition slice (a : positive) (σ : gmap positive (list jsval))
  : positive * gmap positive (list jsval) :=
  let copy := fresh (dom σ) in
  (copy, <[copy := default [] (σ !! a)]> σ).

(** [a.sort(cmp)] sorts [a] itself and returns [a]; when the comparator
    throws nothing has been written back. *)
Definition sort (cmp : jsval → jsval → result (option Z)) (a : positive)
    (σ : gmap positive (list jsval))
  : result positive * gmap positive (list jsval) :=
  match sortBy cmp (default [] (σ !! a)) with
  | Ok sorted => (Ok a, <[a := sorted]> σ)
  | Err e => (Err e, σ)
  end.

(** [prioritizeRemediations], lines 31-38, on references. *)
Definition prioritizeRemediations (enriched : positive)
    (σ : gmap positive (list jsval))
  : result positive * gmap positive (list jsval) :=
  let '(copy, σ1) := slice enriched σ in
  sort compareImpact copy σ1.

(** Lines 199-219 of [POST]: the array the builder is handed is read
    after the prioritiser has run. *)
Definition prioritizeThenBuild (env : Collaborators) (pageUrl now requestId : string)
    (enrichedViolations : positive) (σ : gmap positive (list jsval))
  : result (positive * AuditReport) * gmap positive (list jsval) :=
  match prioritizeRemediations enrichedViolations σ with
  | (Ok prioritized, σ') =>
      (report ← generateAuditReport env
                   {| scan_url := pageUrl;
                      violations := default [] (σ' !! enrichedViolations);
                      timestamp := now; scan_requestId := requestId |};
       Ok (prioritized, report), σ')
  | (Err e, σ') => (Err e, σ')
  end.

End Store.

(** ** The request side of [POST], lines 129-184

    Strings are the UTF-8 bytes of the JavaScript string; a prefix test
    against an ASCII word reads the same on both. *)
Module Handler.

Import RateLimiter.

(** The code points [String.prototype.trim] removes (WhiteSpace and
    LineTerminator of ECMAScript), as UTF-8 byte sequences: U+0009 to
    U+000D, U+0020, U+00A0, U+1680, U+2000 to U+200A, U+2028, U+2029,
    U+202F, U+205F, U+3000, U+FEFF. *)
Definition whiteSpace : list (list ascii) :=
  map (map ascii_of_nat)
    [ [9]; [10]; [11]; [12]; [13]; [32]; [194; 160]; [225; 154; 128];
      [226; 128; 128]; [226; 128; 129]; [226; 128; 130]; [226; 128; 131];
      [226; 128; 132]; [226; 128; 133]; [226; 128; 134]; [226; 128; 135];
      [226; 128; 136]; [226; 128; 137]; [226; 128; 138]; [226; 128; 168];
      [226; 128; 169]; [226; 128; 175]; [226; 129; 159]; [227; 128; 128];
      [239; 187; 191] ]%nat.

Fixpoint startsWithBytes (w l : list ascii) : bool :=
  match w, l with
  | [], _ => true
  | _ :: _, [] => false
  | a :: w', b :: l' => Ascii.eqb a b && startsWithBytes w' l'
  end.

(** One white-space character taken off the front, if there is one. *)
Definition stripWhite (ws : list (list ascii)) (l : list ascii) : option (list ascii) :=
  match List.find (λ w, startsWithBytes w l) ws with
  | Some w => Some (drop (length w) l)
  | None => None
  end.

Fixpoint trimStartFuel (ws : list (list ascii)) (fuel : nat) (l : list ascii)
  : list ascii :=
  match fuel with
  | O => l
  | S fuel' =>
      match stripWhite ws l with
      | Some l' => trimStartFuel ws fuel' l'
      | None => l
      end
  end.

Definition trimStartBytes (l : list ascii) : list ascii :=
  trimStartFuel whiteSpace (length l) l.

Definition trimEndBytes (l : list ascii) : list ascii :=
  rev (trimStartFuel (map (@rev ascii) whiteSpace) (length l) (rev l)).

(** [String.prototype.trim]. *)
Definition trim (s : string) : string :=
  string_of_list_ascii (trimEndBytes (trimStartBytes (list_ascii_of_string s))).

(** Lines 159-164: trim, then put [https://] in front unless a scheme
    is there. *)
Definition normalizeUrl (url : string) : string :=
  let url := trim url in
  if negb (String.prefix "http://" url) && negb (String.prefix "https://" url)
  then "https://" +:+ url
  else url.

(** Lines 130-133: [Headers.get] answers [null] for a header that is not
    there, and an empty value is falsy like [null]. *)
Definition headerOr (headers : string → option string) (name rest : string) : string :=
  match headers name with
  | Some v => if String.eqb v "" then rest else v
  | None => rest
  end.

Definition clientIp (headers : string → option string) : string :=
  headerOr headers "x-forwarded-for"
    (headerOr headers "x-client-ip"
       (headerOr headers "cf-connecting-ip" "unknown")).

(** What lies outside the route: the URL parser behind [new URL(url)]
    and the scanner. *)
Record Server : Type := {
  parsesAsUrl : string → bool;
  scanWebsite : string → result (list jsval)
}.

(** The answers of [POST]: the two 400 replies, or one of the answers
    of the audit. *)
Inductive Outcome : Type :=
| BadRequest (error : string)
| Answered (r : Response).

Definition urlRequired : string := "URL is required".
Definition invalidUrl : string :=
  "Invalid URL format. Please enter a valid URL like example.com or https://example.com".

(** [POST] from line 148 on, for an admitted request: [body] is what
    [await req.json()] gives.  A throw anywhere in the [try] block ends
    in the [catch] branch. *)
Definition admitted (srv : Server) (env : Collaborators) (now requestId : string)
    (body : result jsval) : Outcome :=
  match b ← body; prop b "url" with
  | Err e => Answered (catchBranch e)
  | Ok url =>
      if negb (truthy url) then BadRequest urlRequired
      else match url with
           | JStr s =>
               if String.eqb (trim s) "" then BadRequest urlRequired
               else
                 let url := normalizeUrl s in
                 if parsesAsUrl srv url
                 then Answered (respond env url now requestId (scanWebsite srv url))
                 else BadRequest invalidUrl
           | _ => Answered (catchBranch (TypeError "url.trim is not a function"))
           end
  end.

(** [POST] as a whole: the client identifier, the gate, then the
    rest. *)
Definition handle (cfg : Config) (srv : Server) (env : Collaborators)
    (clock : Z) (headers : string → option string) (now requestId : string)
    (body : result jsval) (state : gmap string (list Z))
  : Outcome * gmap string (list Z) :=
  match gate cfg clock (clientIp headers) state with
  | (Some rejection, state') => (Answered rejection, state')
  | (None, state') => (admitted srv env now requestId body, state')
  end.

End Handler.

Import RateLimiter.

(** * Vocabulary of the specification and sample data *)

(** What the fallback chain [a || b || c] picks. *)
Definition firstTruthy (candidates : list jsval) (fallback : jsval) : jsval :=
  default fallback (List.find truthy candidates).

(** [v.tags || []]. *)
Definition tagsOf (v : jsval) : jsval := firstTruthy [get v "tags"] (JArr []).

(** Three raw records: an empty one, one under the alternative field
    names, one in the scanner's usual shape. *)
Definition sampleRaw : list jsval :=
  [ JObj [];
    JObj [("ruleId", JStr "color-contrast"); ("severity", JStr "serious")];
    JObj [("id", JStr "image-alt"); ("impact", JStr "critical");
          ("tags", JArr [JStr "wcag2a"; JStr "cat.text-alternatives"; JStr "WCAG111"])] ].

(** The severity words the specification names. *)
Definition severityVocabulary : list string :=
  ["critical"; "serious"; "high"; "moderate"; "low"; "minor"].

(** Membership in it, letter case aside. *)
Definition recognizedSeverity (v : jsval) : bool :=
  match v with
  | JStr s => existsb (String.eqb (toLowerCase s)) severityVocabulary
  | _ => false
  end.

(** The source's impact, or its severity when it has no impact. *)
Definition sourceSeverity (v : jsval) : jsval :=
  firstTruthy [get v "impact"; get v "severity"] JUndef.

(** The specification's reading: a recognised source value is kept,
    anything else becomes ["moderate"]. *)
Definition impactDefaultsWhenUnrecognized (raw : list jsval) : Prop :=
  ∀ enriched idx v e,
    enrichViolations raw = Ok enriched →
    raw !! idx = Some v → enriched !! idx = Some e →
    get e "impact" =
      if recognizedSeverity (sourceSeverity v) then sourceSeverity v else JStr "moderate".

(** [tags] is absent, falsy or an array: [filter] can be called on
    [v.tags || []]. *)
Definition tagsFilterable (v : jsval) : bool :=
  match get v "tags" with
  | JArr _ => true
  | t => negb (truthy t)
  end.

(** A value that has a string form: ToString does not throw on it. *)
Definition stringable (t : jsval) : bool :=
  match toString t with
  | Ok _ => true
  | Err _ => false
  end.

(** [tags] is absent, falsy or an array of values that have a string
    form: the record passes the [try] block. *)
Definition tagsReadable (v : jsval) : bool :=
  match get v "tags" with
  | JArr items => forallb stringable items
  | t => negb (truthy t)
  end.

(** The string form of the tag begins with [wcag], letter case aside. *)
Definition wcagWord (t : jsval) : bool :=
  match toString t with
  | Ok s => String.prefix "wcag" (toLowerCase s)
  | Err _ => false
  end.

(** A thrown value the [catch] branch can read: it is not [null] or
    [undefined] and its message is a string or falsy.  Every [Error] is
    such a value. *)
Definition readableError (error : exn) : bool :=
  negb (nullish error) &&
  match get error "message" with
  | JStr _ => true
  | m => negb (truthy m)
  end.


(** The header is absent or empty. *)
Definition blankHeader (headers : string → option string) (name : string) : Prop :=
  headers name = None ∨ headers name = Some "".

(** A record whose [tags] holds an object that has no string form. *)
Definition unreadableTag : jsval :=
  JObj [("id", JStr "a"); ("impact", JStr "critical");
        ("tags", JArr [JObj [("toString", JNum 1)]])].

(** A violation whose [id] has no string form, and an explanation
    collaborator that always fails. *)
Definition unprintableId : jsval :=
  JObj [("id", JObj [("toString", JNum 1)]); ("raw", JObj [])].

(** The log line of line 257 can be written for the violation: it is
    not [null] or [undefined] and its [id] has a string form. *)
Definition loggable (violation : jsval) : bool :=
  negb (nullish violation) && stringable (get violation "id").

(** The collaborators that are present answer instead of throwing. *)
Definition collaboratorsAnswer (env : Collaborators) : Prop :=
  (∀ plan v, generateImprovementPlan env = Some plan → ∃ r, plan v = Ok r)
  ∧ (∀ summarize u l, generateSummary env = Some summarize → ∃ r, summarize u l = Ok r).

(** No AI module at all: both guarded imports are absent, no key. *)
Definition offline : Collaborators :=
  {| generateImprovementPlan := None;
     generateSummary := None;
     explainIssue := λ _, Err (Exn (Some "no model"));
     geminiKey := false;
     isoNow := "2024-01-01T00:00:01.000Z" |}.

(** The summarisation collaborator is there and unavailable: every call
    of it throws. *)
Definition failingSummarizer : Collaborators :=
  {| generateImprovementPlan := None;
     generateSummary := Some (λ _ _, Err (Exn (Some "quota exceeded")));
     explainIssue := λ _, Err (Exn (Some "quota exceeded"));
     geminiKey := false;
     isoNow := "2024-01-01T00:00:01.000Z" |}.

(** The specification's reading of the fallback: the builder does not
    fail, and the summary of its report is the template
    ["Found N accessibility issue(s)."]. *)
Definition summaryFallsBack (env : Collaborators) (fsr : FullScanResults) : Prop :=
  ∃ report,
    generateAuditReport env fsr = Ok report
    ∧ summary report
      = JStr ("Found " +:+ decimal (length (violations fsr)) +:+ " accessibility issue(s).").

(** [clamp(lo, hi, x)] as the specification writes it. *)
Definition clamp (lo hi x : Z) : Z := Z.max lo (Z.min hi x).

Definition sampleScan (vs : list jsval) : FullScanResults :=
  {| scan_url := "https://example.com"; violations := vs;
     timestamp := "2024-01-01T00:00:00.000Z"; scan_requestId := "scan-1-abc" |}.

(** The scenario with impacts critical, minor, critical. *)
Definition sampleEnriched : list jsval :=
  [ JObj [("id", JStr "a"); ("impact", JStr "critical")];
    JObj [("id", JStr "b"); ("impact", JStr "minor")];
    JObj [("id", JStr "c"); ("impact", JStr "critical")] ].

Definition sampleReport : AuditReport :=
  {| url := "https://example.com";
     accessibilityScore := 76;
     detailedIssues :=
       [ JObj [("id", JStr "a"); ("description", JStr ""); ("impact", JStr "critical");
               ("wcag", JArr []); ("nodes", JArr []); ("remediation", JNull);
               ("raw", JObj [("id", JStr "a"); ("impact", JStr "critical")])];
         JObj [("id", JStr "b"); ("description", JStr ""); ("impact", JStr "minor");
               ("wcag", JArr []); ("nodes", JArr []); ("remediation", JNull);
               ("raw", JObj [("id", JStr "b"); ("impact", JStr "minor")])];
         JObj [("id", JStr "c"); ("description", JStr ""); ("impact", JStr "critical");
               ("wcag", JArr []); ("nodes", JArr []); ("remediation", JNull);
               ("raw", JObj [("id", JStr "c"); ("impact", JStr "critical")])] ];
     summary := JStr "Found 3 accessibility issue(s).";
     meta_scannedAt := "2024-01-01T00:00:00.000Z";
     meta_requestId := "scan-1-abc" |}.

(** The texts the [catch] branch looks for, and the texts it answers
    with. *)
Definition knownSignatures : list string :=
  ["timeout"; "timed out"; "ERR_NAME_NOT_RESOLVED"; "ENOTFOUND";
   "ERR_CONNECTION_REFUSED"; "net::ERR"; "ERR::"].

Definition sanitizedMessages : list string :=
  [timeoutMessage; notFoundMessage; refusedMessage; networkMessage].

Definition navigationError : exn :=
  Exn (Some "Protocol error (Page.navigate): Cannot navigate to invalid URL").

(** An explanation collaborator that answers for every violation, and a
    configured key. *)
Definition online : Collaborators :=
  {| generateImprovementPlan := None;
     generateSummary := None;
     explainIssue := λ v, id ← toString (get v "id");
                          Ok (JStr ("explanation of " +:+ id));
     geminiKey := true;
     isoNow := "2024-01-01T00:00:01.000Z" |}.

(** A configured key and an explanation collaborator that fails for
    every violation. *)
Definition failingExplainer : Collaborators :=
  {| generateImprovementPlan := None;
     generateSummary := None;
     explainIssue := λ _, Err (Exn (Some "quota exceeded"));
     geminiKey := true;
     isoNow := "2024-01-01T00:00:01.000Z" |}.

Definition minorThenCritical : list jsval :=
  [ JObj [("id", JStr "a"); ("impact", JStr "minor")];
    JObj [("id", JStr "b"); ("impact", JStr "critical")] ].

(** The specification's reading of the merge: an explanation found on a
    response issue was generated for the violation with that issue's
    [id]. *)
Definition explanationsFollowIdentity (env : Collaborators) (scanned : list jsval) : Prop :=
  ∀ pageUrl now requestId body idx issue,
    audit env pageUrl now requestId scanned = Ok body →
    detailedIssues (auditReport body) !! idx = Some issue →
    truthy (get issue "aiExplanation") = true →
    ∃ enriched v,
      enrichViolations scanned = Ok enriched
      ∧ In v enriched
      ∧ get v "id" = get issue "id"
      ∧ explainIssue env v = Ok (get issue "aiExplanation").

(** Insertion by descending key: the order that a consistent comparator
    [key y - key x] induces on [sortBy]. *)
Section descending_sort.
Context {A : Type} (key : A → Z).

Fixpoint insertDesc (x : A) (sorted : list A) : list A :=
  match sorted with
  | [] => [x]
  | y :: ys => if (key x <? key y)%Z then y :: insertDesc x ys else x :: y :: ys
  end.

Fixpoint sortDesc (l : list A) : list A :=
  match l with
  | [] => []
  | x :: xs => insertDesc x (sortDesc xs)
  end.

Definition descending (a b : A) : Prop := (key b ≤ key a)%Z.

End descending_sort.

(** The weight the specification gives an enriched violation: the table
    entry of its lower-cased impact, 2 when there is none. *)
Definition specWeight (a : jsval) : Z :=
  match get a "impact" with
  | JStr s => default 2%Z (ownWeight (toLowerCase s) weight)
  | _ => 2%Z
  end.

(** The specification's reading of the prioritiser's result. *)
Definition stableSortByWeight (input output : list jsval) : Prop :=
  Permutation input output
  ∧ StronglySorted (λ a b, (specWeight b ≤ specWeight a)%Z) output
  ∧ ∀ w, List.filter (λ a, (specWeight a =? w)%Z) output
         = List.filter (λ a, (specWeight a =? w)%Z) input.

Definition prioritizesBySeverity (enriched : list jsval) : Prop :=
  ∃ prioritized,
    prioritizeRemediations enriched = Ok prioritized
    ∧ stableSortByWeight enriched prioritized.

(** An item whose impact is falsy, or a string that does not lower-case
    to a property name of [Object.prototype]. *)
Definition plainImpact (a : jsval) : bool :=
  negb (nullish a) &&
  match get a "impact" with
  | JStr s => negb (existsb (String.eqb (toLowerCase s)) objectPrototype)
  | v => negb (truthy v)
  end.

Definition minorThenConstructor : list jsval :=
  [ JObj [("id", JStr "a"); ("impact", JStr "minor")];
    JObj [("id", JStr "b"); ("impact", JStr "constructor")] ].

Definition sampleStore : gmap positive (list jsval) := {[ 1%positive := sampleEnriched ]}.

(** The arrival times of the requests of client [c], in order. *)
Definition requestsOf (c : string) (requests : list (string * Z)) : list Z :=
  map snd (List.filter (λ r, String.eqb r.1 c) requests).

Definition tenPerMinute : Config := {| limit := 10; window := 60 |}.

Definition twoPerMinute : Config := {| limit := 2; window := 60 |}.

(** *** Vocabulary of the further properties *)

(** The source tags of a record, none when [tags] is not an array. *)
Definition tagList (v : jsval) : list jsval :=
  match get v "tags" with
  | JArr items => items
  | _ => []
  end.

(** The record the [catch] block builds at position [idx]. *)
Definition minimalRecord (idx : nat) (v : jsval) : jsval :=
  JObj [("id", if truthy (get v "id") then get v "id"
               else JStr ("violation-" +:+ decimal idx));
        ("raw", v)].

(** An item the comparator can read: its impact is falsy or a string. *)
Definition stringImpact (a : jsval) : bool :=
  negb (nullish a) &&
  match get a "impact" with
  | JStr _ => true
  | v => negb (truthy v)
  end.

(** ASCII white space, a printable ASCII character, and strings made of
    them. *)
Definition asciiWhite (c : ascii) : bool :=
  existsb (Nat.eqb (nat_of_ascii c)) [9; 10; 11; 12; 13; 32]%nat.

Definition printable (c : ascii) : bool :=
  (33 <=? nat_of_ascii c)%nat && (nat_of_ascii c <=? 126)%nat.

Definition asciiBlank (s : string) : bool :=
  forallb asciiWhite (list_ascii_of_string s).

Definition printableEnds (s : string) : bool :=
  match list_ascii_of_string s with
  | [] => false
  | c :: l => printable c && printable (List.last l c)
  end.

(** The impact enrichment hands on is truthy and not a string. *)
Definition nonStringImpact (v : jsval) : bool :=
  match firstTruthy [get v "impact"; get v "severity"] (JStr "moderate") with
  | JStr _ => false
  | _ => true
  end.

(** Two scanner records that prioritisation leaves in place. *)
Definition criticalThenMinor : list jsval :=
  [ JObj [("id", JStr "a"); ("impact", JStr "critical")];
    JObj [("id", JStr "b"); ("impact", JStr "minor")] ].

(** Two scanner records, the first with a numeric impact and a tag
    that has no string form. *)
Definition numericImpactUnreadableTag : list jsval :=
  [ JObj [("id", JStr "a"); ("impact", JNum 3);
          ("tags", JArr [JObj [("toString", JNum 1)]])];
    JObj [("id", JStr "b"); ("impact", JStr "minor")] ].

(** Two scanner records, the first with a numeric impact. *)
Definition numericImpact : list jsval :=
  [ JObj [("id", JStr "a"); ("impact", JNum 3)];
    JObj [("id", JStr "b"); ("impact", JStr "minor")] ].

(** A request that came through two proxies: all three headers are
    set, each to another address. *)
Definition proxiedHeaders (name : string) : option string :=
  if String.eqb name "x-forwarded-for" then Some "198.51.100.7"
  else if String.eqb name "x-client-ip" then Some "203.0.113.9"
  else if String.eqb name "cf-connecting-ip" then Some "192.0.2.1"
  else None.

(** A server whose parser accepts everything and whose scanner finds
    nothing. *)
Definition permissiveServer : Handler.Server :=
  {| Handler.parsesAsUrl := λ _, true; Handler.scanWebsite := λ _, Ok [] |}.

(** * Properties *)
(** ** Maps with a throwing callback *)
Section mapi_facts.
Context {A B : Type} (f : nat → A → result B).

Lemma mapi_from_length i l ys :
  mapi_from f i l = Ok ys → length ys = length l.
Proof.
  revert i ys. induction l as [|x l IH]; intros i ys; simpl.
  - intros [= <-]. reflexivity.
  - destruct (f i x) as [y|e]; simpl; [|discriminate].
    destruct (mapi_from f (S i) l) as [ys'|e] eqn:E; simpl; [|discriminate].
    intros [= <-]. simpl. f_equal. eauto.
Qed.

Lemma mapi_from_lookup i l ys j x :
  mapi_from f i l = Ok ys → l !! j = Some x →
  ∃ y, ys !! j = Some y ∧ f (i + j) x = Ok y.
Proof.
  revert i ys j. induction l as [|x0 l IH]; intros i ys j; simpl.
  - intros _ Hj. discriminate Hj.
  - destruct (f i x0) as [y0|e] eqn:E0; simpl; [|discriminate].
    destruct (mapi_from f (S i) l) as [ys'|e] eqn:E; simpl; [|discriminate].
    intros [= <-]. destruct j as [|j]; simpl.
    + intros [= <-]. exists y0. rewrite Nat.add_0_r. auto.
    + intros Hj. destruct (IH _ _ _ E Hj) as (y & Hy & Hf).
      exists y. split; [exact Hy|]. rewrite <- Hf. f_equal. lia.
Qed.

Lemma mapi_from_total i l :
  (∀ j x, l !! j = Some x → ∃ y, f (i + j) x = Ok y) →
  ∃ ys, mapi_from f i l = Ok ys.
Proof.
  revert i. induction l as [|x l IH]; intros i Hf; simpl.
  - eauto.
  - destruct (Hf 0 x eq_refl) as [y Hy]. rewrite Nat.add_0_r in Hy.
    rewrite Hy. simpl.
    destruct (IH (S i)) as [ys Hys].
    { intros j x' Hj. destruct (Hf (S j) x' Hj) as [y' Hy'].
      exists y'. rewrite <- Hy'. f_equal. lia. }
    rewrite Hys. simpl. eauto.
Qed.

Lemma mapi_from_fails i l j x e :
  l !! j = Some x → f (i + j) x = Err e → ∃ e', mapi_from f i l = Err e'.
Proof.
  revert i j. induction l as [|x0 l IH]; intros i j; simpl.
  - intros Hj. discriminate Hj.
  - destruct j as [|j]; simpl.
    + intros [= ->]. rewrite Nat.add_0_r. intros ->. simpl. eauto.
    + intros Hj Hf. destruct (f i x0) as [y0|e0]; simpl; [|eauto].
      destruct (IH (S i) j Hj) as [e' He'].
      { rewrite <- Hf. f_equal. lia. }
      rewrite He'. simpl. eauto.
Qed.
End mapi_facts.

(** ** Enrichment *)

Lemma prop_record v k : is_record v = true → prop v k = Ok (get v k).
Proof. destruct v; try discriminate. reflexivity. Qed.

Lemma enrichMinimal_record idx v :
  is_record v = true →
  enrichMinimal idx v =
    Ok (JObj [("id", firstTruthy [get v "id"] (JStr ("violation-" +:+ decimal idx)));
              ("raw", v)]).
Proof.
  intros Hv. unfold enrichMinimal, or_else, firstTruthy.
  rewrite prop_record by exact Hv. unfold mbind, result_bind. simpl.
  destruct (truthy (get v "id")); reflexivity.
Qed.

(** The [try] block's callback on a record: it throws exactly when
    [tags] is truthy and not an array. *)
Lemma enrichOne_record idx v :
  is_record v = true →
  enrichOne idx v =
    (wcag ← filterTags (tagsOf v);
     Ok (JObj [("id", firstTruthy [get v "id"; get v "ruleId"]
                        (JStr ("violation-" +:+ decimal idx)));
               ("description", firstTruthy [get v "description"; get v "help"; get v "message"]
                                 (JStr ""));
               ("impact", firstTruthy [get v "impact"; get v "severity"] (JStr "moderate"));
               ("nodes", firstTruthy [get v "nodes"; get v "targets"] (JArr []));
               ("wcag", wcag); ("raw", v)])).
Proof.
  intros Hv. unfold enrichOne, or_else, tagsOf, firstTruthy.
  rewrite !prop_record by exact Hv. unfold mbind, result_bind. simpl.
  destruct (truthy (get v "id")), (truthy (get v "ruleId")),
    (truthy (get v "description")), (truthy (get v "help")), (truthy (get v "message")),
    (truthy (get v "impact")), (truthy (get v "severity")),
    (truthy (get v "nodes")), (truthy (get v "targets")),
    (truthy (get v "tags")); reflexivity.
Qed.

Lemma firstTruthy_truthy candidates fallback :
  truthy fallback = true → truthy (firstTruthy candidates fallback) = true.
Proof.
  intros Hf. unfold firstTruthy.
  destruct (List.find truthy candidates) as [c|] eqn:E; simpl; [|exact Hf].
  apply List.find_some in E. tauto.
Qed.

Lemma firstTruthy_cases candidates fallback :
  firstTruthy candidates fallback = fallback ∨
  In (firstTruthy candidates fallback) candidates.
Proof.
  unfold firstTruthy.
  destruct (List.find truthy candidates) as [c|] eqn:E; simpl; [|auto].
  apply List.find_some in E. tauto.
Qed.

Lemma truthy_not_empty v : truthy v = true → v ≠ JStr "".
Proof. intros H ->. discriminate H. Qed.

Lemma enrichOne_record_id idx v e :
  is_record v = true → enrichOne idx v = Ok e →
  is_record e = true ∧
  get e "id" = firstTruthy [get v "id"; get v "ruleId"] (JStr ("violation-" +:+ decimal idx)) ∧
  get e "impact" = firstTruthy [get v "impact"; get v "severity"] (JStr "moderate").
Proof.
  intros Hv. rewrite enrichOne_record by exact Hv.
  destruct (filterTags (tagsOf v)) as [wcag|err]; simpl; [|discriminate].
  intros [= <-]. auto.
Qed.

Lemma id_of_candidates idx v (c : jsval) more :
  let fallback := JStr ("violation-" +:+ decimal idx) in
  let chosen := firstTruthy (get v "id" :: more) fallback in
  (∀ x, In x more → x = get v "ruleId") →
  truthy chosen = true ∧ chosen ≠ JStr "" ∧
  (chosen = get v "id" ∨ chosen = get v "ruleId" ∨ chosen = fallback).
Proof.
  intros fallback chosen Hmore.
  assert (Ht : truthy chosen = true) by (apply firstTruthy_truthy; reflexivity).
  split; [exact Ht|]. split; [apply truthy_not_empty, Ht|].
  destruct (firstTruthy_cases (get v "id" :: more) fallback) as [H|[H|H]]; fold chosen in H.
  - auto.
  - auto.
  - right. left. apply Hmore, H.
Qed.

(** C4.  Enrichment is total on records: for every sequence of raw
    violation records (objects, whatever fields they carry or miss, the
    empty sequence included) [enrichViolations] returns normally, the
    result has the length of the input, and every item is an object whose
    [id] is non-empty and is the source [id], the source [ruleId] or the
    positional [violation-<index>]. *)
Theorem enrichViolations_total (raw : list jsval) :
  Forall (λ v, is_record v = true) raw →
  ∃ enriched,
    enrichViolations raw = Ok enriched
    ∧ length enriched = length raw
    ∧ ∀ idx v, raw !! idx = Some v →
        ∃ e, enriched !! idx = Some e
          ∧ is_record e = true
          ∧ truthy (get e "id") = true
          ∧ get e "id" ≠ JStr ""
          ∧ (get e "id" = get v "id" ∨ get e "id" = get v "ruleId"
             ∨ get e "id" = JStr ("violation-" +:+ decimal idx)).
Proof.
  intros Hrec. rewrite Forall_lookup in Hrec.
  unfold enrichViolations, mapi.
  destruct (mapi_from enrichOne 0 raw) as [enriched|err] eqn:Htry.
  - exists enriched. split; [reflexivity|].
    split; [eapply mapi_from_length, Htry|].
    intros idx v Hv.
    destruct (mapi_from_lookup _ _ _ _ _ _ Htry Hv) as (e & He & Hf).
    simpl in Hf. apply enrichOne_record_id in Hf as (Hobj & Hid & _); [|eauto].
    exists e. split; [exact He|]. split; [exact Hobj|]. rewrite Hid.
    apply (id_of_candidates idx v JUndef [get v "ruleId"]).
    intros x [<-|[]]. reflexivity.
  - destruct (mapi_from_total enrichMinimal 0 raw) as [enriched Hcatch].
    { intros j x Hx. rewrite enrichMinimal_record by eauto. eauto. }
    exists enriched. split; [exact Hcatch|].
    split; [eapply mapi_from_length, Hcatch|].
    intros idx v Hv.
    destruct (mapi_from_lookup _ _ _ _ _ _ Hcatch Hv) as (e & He & Hf).
    simpl in Hf. rewrite enrichMinimal_record in Hf by eauto.
    injection Hf as <-. eexists. split; [exact He|]. split; [reflexivity|].
    apply (id_of_candidates idx v JUndef []). intros x [].
Qed.

Lemma enrichViolations_total_witness :
  ∃ enriched,
    enrichViolations sampleRaw = Ok enriched
    ∧ length enriched = length sampleRaw
    ∧ ∀ idx v, sampleRaw !! idx = Some v →
        ∃ e, enriched !! idx = Some e
          ∧ is_record e = true
          ∧ truthy (get e "id") = true
          ∧ get e "id" ≠ JStr ""
          ∧ (get e "id" = get v "id" ∨ get e "id" = get v "ruleId"
             ∨ get e "id" = JStr ("violation-" +:+ decimal idx)).
Proof.
  apply (enrichViolations_total sampleRaw).
  repeat constructor.
Defined.

Example enrichViolations_sample :
  enrichViolations sampleRaw =
    Ok [ JObj [("id", JStr "violation-0"); ("description", JStr "");
               ("impact", JStr "moderate"); ("nodes", JArr []); ("wcag", JArr []);
               ("raw", JObj [])];
         JObj [("id", JStr "color-contrast"); ("description", JStr "");
               ("impact", JStr "serious"); ("nodes", JArr []); ("wcag", JArr []);
               ("raw", JObj [("ruleId", JStr "color-contrast"); ("severity", JStr "serious")])];
         JObj [("id", JStr "image-alt"); ("description", JStr "");
               ("impact", JStr "critical"); ("nodes", JArr []);
               ("wcag", JArr [JStr "wcag2a"; JStr "WCAG111"]);
               ("raw", JObj [("id", JStr "image-alt"); ("impact", JStr "critical");
                             ("tags", JArr [JStr "wcag2a"; JStr "cat.text-alternatives";
                                            JStr "WCAG111"])])] ].
Proof. reflexivity. Qed.

(** A [tags] that is not an array sends the whole batch through the
    [catch] block: every item, not only the offending one, comes out as
    the minimal record. *)
Example enrichViolations_degrades_batch :
  enrichViolations
    [ JObj [("id", JStr "image-alt"); ("impact", JStr "critical")];
      JObj [("ruleId", JStr "label"); ("tags", JStr "wcag2a")] ] =
    Ok [ JObj [("id", JStr "image-alt");
               ("raw", JObj [("id", JStr "image-alt"); ("impact", JStr "critical")])];
         JObj [("id", JStr "violation-1");
               ("raw", JObj [("ruleId", JStr "label"); ("tags", JStr "wcag2a")])] ].
Proof. reflexivity. Qed.

(** An element that is [null] is not a record; both maps throw on it. *)
Example enrichViolations_null_raises :
  ∃ e, enrichViolations [JObj []; JNull] = Err e.
Proof. eexists. reflexivity. Qed.

(** *** The enriched impact *)

Lemma filterM_total {A} (test : A → result bool) l :
  (∀ x, In x l → ∃ keep, test x = Ok keep) →
  filterM test l
  = Ok (List.filter (λ x, match test x with Ok keep => keep | Err _ => false end) l).
Proof.
  induction l as [|x l IH]; intros Hall; simpl; [reflexivity|].
  destruct (Hall x (or_introl eq_refl)) as [keep Hx]. rewrite Hx. simpl.
  rewrite IH by (intros y Hy; apply Hall; right; exact Hy). simpl.
  destruct keep; reflexivity.
Qed.

Lemma isWcagTag_stringable t :
  stringable t = true → ∃ keep, isWcagTag t = Ok keep.
Proof.
  unfold stringable, isWcagTag. destruct (toString t); [|discriminate]. simpl. eauto.
Qed.

Lemma filterTags_readable v :
  tagsReadable v = true → ∃ wcag, filterTags (tagsOf v) = Ok wcag.
Proof.
  unfold tagsReadable, tagsOf, firstTruthy. simpl.
  destruct (get v "tags") as [| |b|n|s|items|ps]; simpl; eauto.
  - destruct b; [discriminate|]; simpl; eauto.
  - destruct (n =? 0)%Z; [|discriminate]; simpl; eauto.
  - destruct (String.eqb s ""); [|discriminate]; simpl; eauto.
  - intros Hall. rewrite filterM_total; [simpl; eauto|].
    intros x Hx. apply isWcagTag_stringable.
    rewrite forallb_forall in Hall. apply Hall, Hx.
  - discriminate.
Qed.

(** C9, counterexample.  A source impact outside every severity
    vocabulary is not replaced by ["moderate"]: it is passed through. *)
Lemma impact_unrecognized_passes_through :
  ¬ impactDefaultsWhenUnrecognized [JObj [("id", JStr "x"); ("impact", JStr "banana")]].
Proof.
  intros H.
  specialize (H _ 0%nat _ _ eq_refl eq_refl eq_refl).
  discriminate H.
Qed.

(** C9, amended.  For records whose [tags] is absent, falsy or an
    array of values that each have a string form, the enriched impact is
    the first truthy one of the source's [impact] and [severity],
    unchanged whether or not it is a known severity word, and it is
    ["moderate"] when both are absent or falsy. *)
Theorem enriched_impact (raw : list jsval) :
  Forall (λ v, is_record v = true) raw →
  Forall (λ v, tagsReadable v = true) raw →
  ∃ enriched,
    enrichViolations raw = Ok enriched
    ∧ ∀ idx v, raw !! idx = Some v →
        ∃ e, enriched !! idx = Some e
          ∧ get e "impact" =
              if truthy (get v "impact") then get v "impact"
              else if truthy (get v "severity") then get v "severity"
              else JStr "moderate".
Proof.
  intros Hrec Htags. rewrite Forall_lookup in Hrec. rewrite Forall_lookup in Htags.
  destruct (mapi_from_total enrichOne 0 raw) as [enriched Htry].
  { intros j x Hx. rewrite enrichOne_record by eauto.
    destruct (filterTags_readable x) as [wcag ->]; [eauto|]. simpl. eauto. }
  exists enriched. split.
  { unfold enrichViolations, mapi. rewrite Htry. reflexivity. }
  intros idx v Hv.
  destruct (mapi_from_lookup _ _ _ _ _ _ Htry Hv) as (e & He & Hf).
  simpl in Hf. apply enrichOne_record_id in Hf as (_ & _ & Himpact); [|eauto].
  exists e. split; [exact He|]. rewrite Himpact.
  unfold firstTruthy. simpl.
  destruct (truthy (get v "impact")); [reflexivity|].
  destruct (truthy (get v "severity")); reflexivity.
Qed.

Lemma enriched_impact_witness :
  ∃ enriched,
    enrichViolations sampleRaw = Ok enriched
    ∧ ∀ idx v, sampleRaw !! idx = Some v →
        ∃ e, enriched !! idx = Some e
          ∧ get e "impact" =
              if truthy (get v "impact") then get v "impact"
              else if truthy (get v "severity") then get v "severity"
              else JStr "moderate".
Proof.
  apply (enriched_impact sampleRaw); repeat constructor.
Defined.

(** A tag without a string form makes the test of line 18 throw: the
    batch takes the [catch] path, and the record comes out without an
    impact. *)
Example unreadable_tag_degrades :
  tagsFilterable unreadableTag = true
  ∧ tagsReadable unreadableTag = false
  ∧ enrichViolations [unreadableTag] = Ok [JObj [("id", JStr "a"); ("raw", unreadableTag)]].
Proof. repeat split; reflexivity. Qed.

(** ** The report builder and the validator *)

Lemma clamp_range lo hi x : (lo ≤ hi)%Z → (lo ≤ clamp lo hi x ≤ hi)%Z.
Proof. unfold clamp. lia. Qed.

Lemma issueOf_record env idx v :
  is_record v = true →
  (∀ plan, generateImprovementPlan env = Some plan → ∃ r, plan v = Ok r) →
  ∃ issue, issueOf env idx v = Ok issue.
Proof.
  intros Hv Hplan. unfold issueOf, or_else, and_then.
  rewrite !prop_record by exact Hv. unfold mbind, result_bind. simpl.
  assert (Hraw : ∃ d, (if truthy (get v "raw")
                       then prop (get v "raw") "description"
                       else Ok (get v "raw")) = Ok d).
  { destruct (get v "raw"); simpl; eauto.
    - destruct b; unfold prop; simpl; eauto.
    - destruct (negb (n =? 0)%Z); unfold prop; simpl; eauto.
    - destruct (negb (String.eqb s "")); unfold prop; simpl; eauto. }
  destruct Hraw as [d Hd].
  assert (Hrem : ∃ r, match generateImprovementPlan env with
                      | Some plan => plan v
                      | None => Ok JNull
                      end = Ok r).
  { destruct (generateImprovementPlan env) as [plan|]; eauto. }
  destruct Hrem as [r Hr].
  destruct (truthy (get v "id")), (truthy (get v "description")), (truthy (get v "help"));
    rewrite ?Hd; destruct (truthy d);
    destruct (truthy (get v "impact")), (truthy (get v "wcag")), (truthy (get v "nodes"));
    rewrite Hr; destruct (truthy (get v "raw")); eauto.
Qed.

Lemma issueOf_is_record env idx v issue :
  issueOf env idx v = Ok issue →
  is_record issue = true
  ∧ prop v "id" ||> Ok (JStr ("issue-" +:+ decimal idx)) = Ok (get issue "id").
Proof.
  unfold issueOf. unfold mbind at 1, result_bind at 1.
  destruct (prop v "id" ||> Ok (JStr ("issue-" +:+ decimal idx))) as [id|] eqn:Hid;
    [|discriminate].
  repeat (unfold mbind at 1, result_bind at 1;
          match goal with
          | |- match ?m with Ok _ => _ | Err _ => _ end = _ → _ =>
              destruct m; [|discriminate]
          end).
  intros [= <-]. split; reflexivity.
Qed.

Lemma generateAuditReport_fields env fsr report :
  generateAuditReport env fsr = Ok report →
  accessibilityScore report = clamp 0 100 (100 - 8 * Z.of_nat (length (violations fsr)))
  ∧ mapi (issueOf env) (violations fsr) = Ok (detailedIssues report)
  ∧ match generateSummary env with
    | Some summarize => summarize (scan_url fsr) (detailedIssues report) = Ok (summary report)
    | None => summary report =
                JStr ("Found " +:+ decimal (length (violations fsr)) +:+ " accessibility issue(s).")
    end.
Proof.
  unfold generateAuditReport. unfold mbind, result_bind.
  destruct (mapi (issueOf env) (violations fsr)) as [l|]; [|discriminate].
  destruct (generateSummary env) as [summarize|].
  - destruct (summarize (scan_url fsr) l) eqn:Hs; [|discriminate].
    intros [= <-]. simpl. repeat split; auto. unfold clamp. f_equal. f_equal. lia.
  - intros [= <-]. simpl. repeat split; auto. unfold clamp. f_equal. f_equal. lia.
Qed.

Lemma generateAuditReport_returns env fsr :
  Forall (λ v, is_record v = true) (violations fsr) →
  collaboratorsAnswer env →
  ∃ report, generateAuditReport env fsr = Ok report.
Proof.
  intros Hrec [Hplan Hsum]. rewrite Forall_lookup in Hrec.
  destruct (mapi_from_total (issueOf env) 0 (violations fsr)) as [l Hl].
  { intros j x Hx. apply issueOf_record; eauto. }
  unfold generateAuditReport, mapi. rewrite Hl. unfold mbind, result_bind.
  destruct (generateSummary env) as [summarize|] eqn:Hs.
  - destruct (Hsum summarize (scan_url fsr) l eq_refl) as [r ->]. eauto.
  - eauto.
Qed.

Lemma detailedIssues_records env fsr report :
  generateAuditReport env fsr = Ok report →
  length (detailedIssues report) = length (violations fsr)
  ∧ Forall (λ i, is_record i = true) (detailedIssues report).
Proof.
  intros H. apply generateAuditReport_fields in H as (_ & Hmap & _).
  split; [eapply mapi_from_length, Hmap|].
  apply Forall_lookup. intros j issue Hj.
  assert (Hlen := mapi_from_length _ _ _ _ Hmap).
  destruct (lookup_lt_is_Some_2 (violations fsr) j) as [v Hv].
  { rewrite <- Hlen. eapply lookup_lt_Some, Hj. }
  destruct (mapi_from_lookup _ _ _ _ _ _ Hmap Hv) as (y & Hy & Hf).
  rewrite Hj in Hy. injection Hy as <-.
  apply issueOf_is_record in Hf. tauto.
Qed.

(** C3.  The report's [accessibilityScore] is
    [clamp(0, 100, 100 - 8 * N)] for a violation list of length [N]: it
    lies in [0,100], it is 76 for three violations and 100 for none; and
    the builder does produce a report whenever the violations are
    records and the collaborators that are present answer. *)
Theorem accessibilityScore_formula (env : Collaborators) (fsr : FullScanResults) :
  (∀ report, generateAuditReport env fsr = Ok report →
     accessibilityScore report = clamp 0 100 (100 - 8 * Z.of_nat (length (violations fsr)))
     ∧ (0 ≤ accessibilityScore report ≤ 100)%Z
     ∧ (length (violations fsr) = 3%nat → accessibilityScore report = 76%Z)
     ∧ (length (violations fsr) = 0%nat → accessibilityScore report = 100%Z))
  ∧ (Forall (λ v, is_record v = true) (violations fsr) → collaboratorsAnswer env →
     ∃ report, generateAuditReport env fsr = Ok report).
Proof.
  split.
  - intros report H. apply generateAuditReport_fields in H as (Hscore & _).
    rewrite Hscore. split; [reflexivity|].
    split; [apply clamp_range; lia|].
    split; intros ->; reflexivity.
  - apply generateAuditReport_returns.
Qed.

Lemma offline_answers : collaboratorsAnswer offline.
Proof. split; intros ? ? ?; discriminate. Qed.

Lemma accessibilityScore_formula_witness :
  ∃ report, generateAuditReport offline (sampleScan sampleEnriched) = Ok report
            ∧ accessibilityScore report = 76%Z.
Proof.
  destruct (accessibilityScore_formula offline (sampleScan sampleEnriched)) as [Hval Hret].
  destruct Hret as [report Hreport].
  - repeat constructor.
  - exact offline_answers.
  - exists report. split; [exact Hreport|].
    apply (Hval report Hreport). reflexivity.
Defined.

Example score_scenarios :
  ∃ r3 r0 r13,
    generateAuditReport offline (sampleScan sampleEnriched) = Ok r3
    ∧ accessibilityScore r3 = 76%Z
    ∧ generateAuditReport offline (sampleScan []) = Ok r0
    ∧ accessibilityScore r0 = 100%Z
    ∧ generateAuditReport offline (sampleScan (replicate 13 (JObj []))) = Ok r13
    ∧ accessibilityScore r13 = 0%Z.
Proof.
  do 3 eexists. repeat split; reflexivity.
Qed.

Lemma validateAuditResults_returns (report : AuditReport) :
  Forall (λ i, is_record i = true) (detailedIssues report) →
  ∃ v, validateAuditResults report = Ok v
       ∧ validationScore v =
           clamp 0 100 (accessibilityScore report
                        - Z.of_nat (length (detailedIssues report)) `div` 2).
Proof.
  intros Hrec. rewrite Forall_lookup in Hrec. unfold validateAuditResults.
  match goal with
  | |- context [mapi ?f (detailedIssues report)] =>
      destruct (mapi_from_total f 0 (detailedIssues report)) as [pairs Hpairs]
  end.
  { intros j x Hx. rewrite !prop_record by eauto. simpl. eauto. }
  unfold mapi. rewrite Hpairs. simpl. eexists. split; reflexivity.
Qed.

(** C2.  For every report the builder produces, [validateAuditResults]
    returns, with [validationScore] equal to
    [clamp(0, 100, accessibilityScore - floor(issueCount / 2))], where
    [issueCount] is the length of the report's [detailedIssues]; the
    score is an integer in [0,100] and does not exceed the report's
    [accessibilityScore]. *)
Theorem validationScore_formula (env : Collaborators) (fsr : FullScanResults)
    (report : AuditReport) :
  generateAuditReport env fsr = Ok report →
  ∃ v, validateAuditResults report = Ok v
       ∧ validationScore v =
           clamp 0 100 (accessibilityScore report
                        - Z.of_nat (length (detailedIssues report)) `div` 2)
       ∧ (0 ≤ validationScore v ≤ 100)%Z
       ∧ (validationScore v ≤ accessibilityScore report)%Z.
Proof.
  intros Hbuild.
  destruct (detailedIssues_records _ _ _ Hbuild) as [_ Hrec].
  destruct (validateAuditResults_returns report Hrec) as (v & Hv & Hscore).
  exists v. split; [exact Hv|]. split; [exact Hscore|].
  apply generateAuditReport_fields in Hbuild as (Hacc & _).
  assert (0 ≤ accessibilityScore report ≤ 100)%Z
    by (rewrite Hacc; apply clamp_range; lia).
  assert (0 ≤ Z.of_nat (length (detailedIssues report)) `div` 2)%Z
    by (apply Z.div_pos; lia).
  rewrite Hscore. unfold clamp. lia.
Qed.

Example generateAuditReport_sample :
  generateAuditReport offline (sampleScan sampleEnriched) = Ok sampleReport.
Proof. reflexivity. Qed.

Lemma validationScore_formula_witness :
  ∃ v, validateAuditResults sampleReport = Ok v
       ∧ validationScore v = clamp 0 100 (76 - 3 `div` 2)
       ∧ (0 ≤ validationScore v ≤ 100)%Z
       ∧ (validationScore v ≤ 76)%Z.
Proof.
  apply (validationScore_formula offline (sampleScan sampleEnriched) sampleReport).
  reflexivity.
Defined.

Example validateAuditResults_sample :
  validateAuditResults sampleReport =
    Ok {| overallQuality := "fair"; validationScore := 75;
          issues := [ JObj [("id", JStr "a"); ("impact", JStr "critical")];
                      JObj [("id", JStr "b"); ("impact", JStr "minor")];
                      JObj [("id", JStr "c"); ("impact", JStr "critical")] ];
          warnings := [] |}.
Proof. reflexivity. Qed.

(** The fallback of lines 60-62 as the code has it.  With the
    summarisation collaborator absent, the summary of
    every report the builder returns is
    ["Found N accessibility issue(s)."] with [N] the number of
    violations; the builder returns whenever the violations are records
    and the remediation collaborator, if present, answers; and for the
    empty violation list it returns with
    ["Found 0 accessibility issue(s)."], whatever the remediation
    collaborator is. *)
Theorem summary_fallback (env : Collaborators) (fsr : FullScanResults) :
  generateSummary env = None →
  (∀ report, generateAuditReport env fsr = Ok report →
     summary report =
       JStr ("Found " +:+ decimal (length (violations fsr)) +:+ " accessibility issue(s)."))
  ∧ (Forall (λ v, is_record v = true) (violations fsr) →
     (∀ plan v, generateImprovementPlan env = Some plan → ∃ r, plan v = Ok r) →
     ∃ report, generateAuditReport env fsr = Ok report)
  ∧ (violations fsr = [] →
     ∃ report, generateAuditReport env fsr = Ok report
               ∧ summary report = JStr "Found 0 accessibility issue(s)."
               ∧ accessibilityScore report = 100%Z).
Proof.
  intros Habsent. split; [|split].
  - intros report H. apply generateAuditReport_fields in H as (_ & _ & Hs).
    rewrite Habsent in Hs. exact Hs.
  - intros Hrec Hplan. apply generateAuditReport_returns; [exact Hrec|].
    split; [exact Hplan|]. intros ? ? ? H. rewrite Habsent in H. discriminate H.
  - intros Hempty. unfold generateAuditReport. rewrite Hempty, Habsent.
    eexists. split; [reflexivity|]. split; reflexivity.
Qed.

Lemma summary_fallback_witness :
  ∃ report, generateAuditReport offline (sampleScan []) = Ok report
            ∧ summary report = JStr "Found 0 accessibility issue(s)."
            ∧ accessibilityScore report = 100%Z.
Proof.
  apply (summary_fallback offline (sampleScan []) eq_refl). reflexivity.
Defined.

(** A summarisation collaborator that is there decides the summary
    alone: the template is not consulted, and a throw of the call is the
    builder's. *)
Lemma summarizer_decides_summary env fsr summarize :
  generateSummary env = Some summarize →
  (∀ report, generateAuditReport env fsr = Ok report →
     summarize (scan_url fsr) (detailedIssues report) = Ok (summary report))
  ∧ (∀ issues e, mapi (issueOf env) (violations fsr) = Ok issues →
       summarize (scan_url fsr) issues = Err e →
       generateAuditReport env fsr = Err e).
Proof.
  intros Hthere. split.
  - intros report H. apply generateAuditReport_fields in H as (_ & _ & Hs).
    rewrite Hthere in Hs. exact Hs.
  - intros issues e Hissues Hthrow. unfold generateAuditReport.
    rewrite Hissues, Hthere. unfold mbind, result_bind. rewrite Hthrow. reflexivity.
Qed.

(** C7.  A summarisation collaborator that is there but unavailable, its
    call failing, is not covered by the guard of line 60.  For the empty
    violation list the builder throws what the call threw instead of
    answering ["Found 0 accessibility issue(s)."], and the request ends
    in the 500 answer with the collaborator's message. *)
Theorem summary_fallback_missed_on_failure :
  generateAuditReport failingSummarizer (sampleScan []) = Err (Exn (Some "quota exceeded"))
  ∧ ¬ summaryFallsBack failingSummarizer (sampleScan [])
  ∧ respond failingSummarizer "https://example.com" "2024-01-01T00:00:00.000Z" "scan-1-abc"
            (Ok []) = ServerError "quota exceeded".
Proof.
  split; [reflexivity|]. split; [|reflexivity].
  intros (report & Hreport & _). discriminate Hreport.
Qed.

(** A summarisation collaborator that is present but throws is not
    covered by the guard of line 60: the builder throws with it. *)
Example summary_collaborator_throws :
  generateAuditReport
    {| generateImprovementPlan := None;
       generateSummary := Some (λ _ _, Err (Exn (Some "quota exceeded")));
       explainIssue := λ _, Err (Exn None);
       geminiKey := false;
       isoNow := "2024-01-01T00:00:01.000Z" |}
    (sampleScan []) = Err (Exn (Some "quota exceeded")).
Proof. reflexivity. Qed.

Example sanityCheck_empty :
  ∃ report, generateAuditReport offline (sampleScan []) = Ok report
            ∧ passed (performSanityCheck report) = true.
Proof. eexists. split; reflexivity. Qed.

(** ** The error branch *)

(** What the branch does: a message that carries a known signature is
    replaced by one of the four fixed texts, any other message is sent as
    it is. *)
Lemma errorMessageOf_cases (error : exn) :
  (existsb (includes (rawErrorMessage error)) knownSignatures = true
   ∧ In (errorMessageOf error) sanitizedMessages)
  ∨ (existsb (includes (rawErrorMessage error)) knownSignatures = false
     ∧ errorMessageOf error = rawErrorMessage error).
Proof.
  unfold errorMessageOf, knownSignatures, sanitizedMessages. simpl existsb.
  repeat match goal with
         | |- context [includes (rawErrorMessage error) ?sig] =>
             destruct (includes (rawErrorMessage error) sig);
             simpl; [left; split; [reflexivity | tauto]|]
         end.
  right. split; reflexivity.
Qed.

(** C8.  A failure whose text carries none of the known signatures
    reaches the 500 response unchanged: the body's [error] is the raw
    internal message. *)
Theorem raw_error_message_in_response :
  respond offline "https://example.com" "2024-01-01T00:00:00.000Z" "scan-1-abc"
          (Err navigationError)
  = ServerError "Protocol error (Page.navigate): Cannot navigate to invalid URL"
  ∧ ¬ In "Protocol error (Page.navigate): Cannot navigate to invalid URL" sanitizedMessages.
Proof.
  split; [reflexivity|].
  unfold sanitizedMessages. simpl. intros [H|[H|[H|[H|[]]]]]; discriminate H.
Qed.

Example timeout_is_sanitized :
  respond offline "https://example.com" "2024-01-01T00:00:00.000Z" "scan-1-abc"
          (Err (Exn (Some "Navigation timeout of 30000 ms exceeded")))
  = ServerError timeoutMessage.
Proof. reflexivity. Qed.

Example name_not_found_is_sanitized :
  errorMessageOf (Exn (Some "net::ERR_NAME_NOT_RESOLVED at https://nowhere.invalid"))
  = notFoundMessage.
Proof. reflexivity. Qed.

(** ** Response assembly *)

Lemma get_set_assoc k v ps : assoc k (set_assoc k v ps) = v.
Proof.
  induction ps as [|[k' v'] ps IH]; simpl.
  - rewrite String.eqb_refl. reflexivity.
  - destruct (String.eqb k k') eqn:E; simpl.
    + rewrite String.eqb_refl. reflexivity.
    + rewrite E. exact IH.
Qed.

Lemma get_spread_with o k v : get (spread_with o k v) k = v.
Proof.
  destruct o; simpl; rewrite ?String.eqb_refl; try reflexivity.
  apply get_set_assoc.
Qed.

(** What the assembly does: the issue at position [idx] of the report,
    which follows the enrichment order, receives the explanation found at
    position [idx] of the prioritised list. *)
Lemma merged_explanation_positional env pageUrl now requestId scanned body :
  audit env pageUrl now requestId scanned = Ok body →
  ∃ enriched prioritized enhanced,
    enrichViolations scanned = Ok enriched
    ∧ prioritizeRemediations enriched = Ok prioritized
    ∧ enhanceWithAI env prioritized = Ok enhanced
    ∧ ∀ idx issue,
        detailedIssues (auditReport body) !! idx = Some issue →
        get issue "aiExplanation" = explanationAt enhanced idx.
Proof.
  unfold audit. unfold mbind, result_bind.
  destruct (enrichViolations scanned) as [enriched|]; [|discriminate].
  destruct (prioritizeRemediations enriched) as [prioritized|] eqn:Hp; [|discriminate].
  destruct (generateAuditReport env _) as [report|]; [|discriminate].
  destruct (validateAuditResults report) as [v|]; [|discriminate].
  destruct (enhanceWithAI env prioritized) as [enhanced|] eqn:He; [|discriminate].
  intros [= <-]. exists enriched, prioritized, enhanced.
  split; [reflexivity|]. split; [exact Hp|]. split; [exact He|].
  intros idx issue. simpl. unfold mergeExplanations. rewrite list_lookup_imap.
  destruct (detailedIssues report !! idx) as [i|]; simpl; [|discriminate].
  intros [= <-]. apply get_spread_with.
Qed.

Example audit_minorThenCritical :
  detailedIssues <$>
    (match audit online "https://example.com" "2024-01-01T00:00:00.000Z" "scan-1-abc"
             minorThenCritical with
     | Ok body => Some (auditReport body)
     | Err _ => None
     end)
  = Some
      [ JObj [("id", JStr "a"); ("description", JStr ""); ("impact", JStr "minor");
              ("wcag", JArr []); ("nodes", JArr []); ("remediation", JNull);
              ("raw", JObj [("id", JStr "a"); ("impact", JStr "minor")]);
              ("aiExplanation", JStr "explanation of b")];
        JObj [("id", JStr "b"); ("description", JStr ""); ("impact", JStr "critical");
              ("wcag", JArr []); ("nodes", JArr []); ("remediation", JNull);
              ("raw", JObj [("id", JStr "b"); ("impact", JStr "critical")]);
              ("aiExplanation", JStr "explanation of a")] ].
Proof. reflexivity. Qed.

(** C1.  With a minor violation scanned before a critical one, the
    response attaches to the issue [a] the explanation that was generated
    for [b]: the explanations are merged by position in the prioritised
    list, not by issue identity. *)
Theorem explanation_misattributed :
  ¬ explanationsFollowIdentity online minorThenCritical.
Proof.
  intros H.
  eassert (Hbody : audit online "https://example.com" "2024-01-01T00:00:00.000Z"
                          "scan-1-abc" minorThenCritical = Ok _) by reflexivity.
  destruct (H _ _ _ _ 0%nat _ Hbody eq_refl eq_refl)
    as (enriched & v & Henr & Hin & Hid & Hexp).
  injection Henr as <-.
  destruct Hin as [<-|[<-|[]]].
  - discriminate Hexp.
  - discriminate Hid.
Qed.

(** ** Prioritisation *)

(** Insertion by descending key, the order a consistent comparator
    [key y - key x] induces. *)
Section sort_facts.
Context {A : Type} (cmp : A → A → result (option Z)) (key : A → Z).

Lemma insertDesc_perm x s : Permutation (x :: s) (insertDesc key x s).
Proof.
  induction s as [|y ys IH]; simpl; [reflexivity|].
  destruct (key x <? key y)%Z; [|reflexivity].
  rewrite <- IH. apply perm_swap.
Qed.

Lemma sortDesc_perm l : Permutation l (sortDesc key l).
Proof.
  induction l as [|x xs IH]; simpl; [reflexivity|].
  rewrite <- insertDesc_perm. apply perm_skip, IH.
Qed.

Lemma insertDesc_sorted x s :
  StronglySorted (descending key) s → StronglySorted (descending key) (insertDesc key x s).
Proof.
  induction 1 as [|y ys Hs IH Hy]; simpl.
  - repeat constructor.
  - destruct (key x <? key y)%Z eqn:E.
    + apply Z.ltb_lt in E. constructor; [exact IH|].
      rewrite <- insertDesc_perm. constructor; [unfold descending; lia|exact Hy].
    + apply Z.ltb_ge in E. constructor; [constructor; assumption|].
      constructor; [exact E|].
      eapply Forall_impl; [exact Hy|]. unfold descending. simpl. intros; lia.
Qed.

Lemma sortDesc_sorted l : StronglySorted (descending key) (sortDesc key l).
Proof.
  induction l as [|x xs IH]; simpl; [constructor|].
  apply insertDesc_sorted, IH.
Qed.

Lemma insertDesc_stable w x s :
  List.filter (λ a, (key a =? w)%Z) (insertDesc key x s)
  = List.filter (λ a, (key a =? w)%Z) (x :: s).
Proof.
  induction s as [|y ys IH]; simpl; [reflexivity|].
  destruct (key x <? key y)%Z eqn:E; [|reflexivity].
  apply Z.ltb_lt in E. simpl. rewrite IH. simpl.
  destruct (key x =? w)%Z eqn:Ex, (key y =? w)%Z eqn:Ey; try reflexivity.
  apply Z.eqb_eq in Ex, Ey. lia.
Qed.

Lemma sortDesc_stable w l :
  List.filter (λ a, (key a =? w)%Z) (sortDesc key l)
  = List.filter (λ a, (key a =? w)%Z) l.
Proof.
  induction l as [|x xs IH]; simpl; [reflexivity|].
  rewrite insertDesc_stable. simpl. rewrite IH. reflexivity.
Qed.

Lemma insertBy_consistent x s :
  (∀ y, In y s → cmp x y = Ok (Some (key y - key x)%Z)) →
  insertBy cmp x s = Ok (insertDesc key x s).
Proof.
  induction s as [|y ys IH]; simpl; intros Hc; [reflexivity|].
  rewrite (Hc y) by auto. simpl.
  replace (0 <? key y - key x)%Z with (key x <? key y)%Z
    by (destruct (Z.ltb_spec (key x) (key y)), (Z.ltb_spec 0 (key y - key x)); lia).
  destruct (key x <? key y)%Z; [|reflexivity].
  rewrite IH by auto. reflexivity.
Qed.

Lemma sortBy_consistent l :
  (∀ x y, In x l → In y l → cmp x y = Ok (Some (key y - key x)%Z)) →
  sortBy cmp l = Ok (sortDesc key l).
Proof.
  induction l as [|x xs IH]; simpl; intros Hc; [reflexivity|].
  rewrite IH by auto. simpl. apply insertBy_consistent.
  intros y Hy. apply Hc; [auto|]. right.
  eapply Permutation_in; [symmetry; apply sortDesc_perm|exact Hy].
Qed.
End sort_facts.

Lemma ownWeight_nonzero key w : ownWeight key weight = Some w → w ≠ 0%Z.
Proof.
  unfold weight. simpl.
  repeat match goal with
         | |- context [String.eqb key ?k] => destruct (String.eqb key k)
         end; intros [= <-]; lia.
Qed.

Lemma weightLookup_plain s :
  existsb (String.eqb s) objectPrototype = false →
  weightOrDefault (weightLookup s) = Some (default 2%Z (ownWeight s weight)).
Proof.
  intros Hs. unfold weightLookup.
  destruct (ownWeight s weight) as [w|] eqn:E.
  - apply ownWeight_nonzero in E. simpl.
    destruct (Z.eqb_spec w 0); [contradiction|reflexivity].
  - rewrite Hs. reflexivity.
Qed.

Lemma impactKey_plain a :
  plainImpact a = true →
  ∃ k, impactKey a = Ok k ∧ weightOrDefault (weightLookup k) = Some (specWeight a).
Proof.
  unfold plainImpact, impactKey, specWeight, or_else, prop.
  intros [Hn Hi]%andb_prop. apply negb_true_iff in Hn. rewrite Hn.
  unfold mbind, result_bind.
  destruct (get a "impact") as [| |b|n|s|items|ps]; simpl in *;
    try (eexists; split; [reflexivity|reflexivity]).
  - apply negb_true_iff in Hi. rewrite Hi. simpl. eexists; split; reflexivity.
  - apply negb_true_iff in Hi. rewrite Hi. simpl. eexists; split; reflexivity.
  - apply negb_true_iff in Hi.
    destruct (String.eqb_spec s "") as [->|Hne]; simpl.
    + eexists; split; reflexivity.
    + eexists. split; [reflexivity|]. apply weightLookup_plain, Hi.
  - discriminate.
  - discriminate.
Qed.

Lemma compareImpact_plain a b :
  plainImpact a = true → plainImpact b = true →
  compareImpact a b = Ok (Some (specWeight b - specWeight a)%Z).
Proof.
  intros (ka & Hka & Hwa)%impactKey_plain (kb & Hkb & Hwb)%impactKey_plain.
  unfold compareImpact. rewrite Hka, Hkb. simpl. rewrite Hwa, Hwb. reflexivity.
Qed.

(** On items with plain impacts the prioritiser is the stable sort by
    descending weight the specification describes. *)
Lemma prioritizeRemediations_plain (enriched : list jsval) :
  Forall (λ a, plainImpact a = true) enriched →
  prioritizesBySeverity enriched.
Proof.
  intros Hplain. rewrite Forall_forall in Hplain.
  exists (sortDesc specWeight enriched). split.
  - apply sortBy_consistent. intros x y Hx Hy.
    apply compareImpact_plain; apply Hplain; apply list_elem_of_In; assumption.
  - split; [apply sortDesc_perm|].
    split; [apply (sortDesc_sorted specWeight)|].
    intros w. apply (sortDesc_stable specWeight).
Qed.

Example prioritize_scenario :
  prioritizeRemediations sampleEnriched =
    Ok [ JObj [("id", JStr "a"); ("impact", JStr "critical")];
         JObj [("id", JStr "c"); ("impact", JStr "critical")];
         JObj [("id", JStr "b"); ("impact", JStr "minor")] ].
Proof. reflexivity. Qed.

Example prioritize_case_insensitive :
  prioritizeRemediations
    [ JObj [("id", JStr "a")];
      JObj [("id", JStr "b"); ("impact", JStr "Serious")];
      JObj [("id", JStr "c"); ("impact", JStr "HIGH")];
      JObj [("id", JStr "d"); ("impact", JStr "blocker")] ] =
    Ok [ JObj [("id", JStr "b"); ("impact", JStr "Serious")];
         JObj [("id", JStr "c"); ("impact", JStr "HIGH")];
         JObj [("id", JStr "a")];
         JObj [("id", JStr "d"); ("impact", JStr "blocker")] ].
Proof. reflexivity. Qed.

(** C5.  An impact that names a property of [Object.prototype] does not
    get the default weight 2: the lookup finds the inherited value, the
    comparator answers NaN whichever way the two items are passed, and
    the item is left where it was, here behind an item of weight 1.  With
    two items no other comparison can be made, so the outcome is the same
    under every sorting algorithm an engine may use. *)
Theorem inherited_key_not_defaulted :
  prioritizeRemediations minorThenConstructor = Ok minorThenConstructor
  ∧ map specWeight minorThenConstructor = [1%Z; 2%Z]
  ∧ compareImpact (JObj [("id", JStr "a"); ("impact", JStr "minor")])
                  (JObj [("id", JStr "b"); ("impact", JStr "constructor")]) = Ok None
  ∧ compareImpact (JObj [("id", JStr "b"); ("impact", JStr "constructor")])
                  (JObj [("id", JStr "a"); ("impact", JStr "minor")]) = Ok None
  ∧ ¬ prioritizesBySeverity minorThenConstructor.
Proof.
  split; [reflexivity|]. split; [reflexivity|]. split; [reflexivity|].
  split; [reflexivity|].
  intros (prioritized & Hp & _ & Hsorted & _).
  injection Hp as <-.
  apply StronglySorted_inv in Hsorted as [_ Hhead].
  apply Forall_inv in Hhead. vm_compute in Hhead. apply Hhead. reflexivity.
Qed.

(** An impact that is truthy and not a string makes the comparator
    throw. *)
Example numeric_impact_throws :
  ∃ e, prioritizeRemediations
         [ JObj [("id", JStr "a"); ("impact", JNum 3)];
           JObj [("id", JStr "b"); ("impact", JStr "minor")] ] = Err e.
Proof. eexists. reflexivity. Qed.

(** ** The prioritiser leaves its argument alone *)

Lemma slice_fresh (a : positive) (σ : gmap positive (list jsval)) xs :
  σ !! a = Some xs →
  let copy := (Store.slice a σ).1 in
  let σ1 := (Store.slice a σ).2 in
  copy ≠ a
  ∧ (copy ∉ dom σ)
  ∧ σ1 !! copy = Some xs
  ∧ ∀ l, l ∈ dom σ → σ1 !! l = σ !! l.
Proof.
  intros Ha. unfold Store.slice. simpl.
  pose proof (is_fresh (dom σ)) as Hfresh.
  assert (Hin : a ∈ dom σ) by (apply elem_of_dom; eauto).
  assert (Hne : fresh (dom σ) ≠ a) by (intros Heq; rewrite Heq in Hfresh; contradiction).
  split; [exact Hne|]. split; [exact Hfresh|].
  split; [rewrite lookup_insert_eq, Ha; reflexivity|].
  intros l Hl. apply lookup_insert_ne. intros Heq. rewrite Heq in Hfresh. contradiction.
Qed.

(** C10.  [prioritizeRemediations] does not change the array it is
    given: whether the sort returns or throws, the input array holds the
    same elements in the same order afterwards, no other array of the
    store is touched, the result is a new array holding the prioritised
    elements, and the report builder, run after the prioritiser on the
    same array, is handed the elements in their enrichment order. *)
Theorem prioritizeRemediations_keeps_input (enrichedViolations : positive)
    (σ : gmap positive (list jsval)) (xs : list jsval) :
  σ !! enrichedViolations = Some xs →
  (Store.prioritizeRemediations enrichedViolations σ).2 !! enrichedViolations = Some xs
  ∧ (∀ l, l ∈ dom σ → (Store.prioritizeRemediations enrichedViolations σ).2 !! l = σ !! l)
  ∧ match (Store.prioritizeRemediations enrichedViolations σ).1 with
    | Ok prioritized =>
        prioritized ≠ enrichedViolations
        ∧ ∃ sorted, prioritizeRemediations xs = Ok sorted
                    ∧ (Store.prioritizeRemediations enrichedViolations σ).2 !! prioritized
                      = Some sorted
    | Err e => prioritizeRemediations xs = Err e
    end
  ∧ ∀ env pageUrl now requestId,
      (Store.prioritizeThenBuild env pageUrl now requestId enrichedViolations σ).1
      = (prioritized ← (Store.prioritizeRemediations enrichedViolations σ).1;
         report ← generateAuditReport env
                     {| scan_url := pageUrl; violations := xs;
                        timestamp := now; scan_requestId := requestId |};
         Ok (prioritized, report)).
Proof.
  intros Ha.
  pose proof (slice_fresh _ _ _ Ha) as Hslice0. cbv zeta in Hslice0.
  destruct Hslice0 as (Hne & Hfresh & Hcopy & Hframe).
  assert (Hin : enrichedViolations ∈ dom σ) by (apply elem_of_dom; eauto).
  unfold Store.prioritizeThenBuild, Store.prioritizeRemediations.
  destruct (Store.slice enrichedViolations σ) as [copy σ1] eqn:Hslice. simpl in *.
  unfold Store.sort, prioritizeRemediations. rewrite Hcopy. simpl.
  destruct (sortBy compareImpact xs) as [sorted|e] eqn:Hsort; simpl.
  - assert (Hkept : <[copy:=sorted]> σ1 !! enrichedViolations = Some xs).
    { rewrite lookup_insert_ne by exact Hne. rewrite Hframe by exact Hin. exact Ha. }
    split; [exact Hkept|].
    split.
    { intros l Hl. rewrite lookup_insert_ne; [apply Hframe, Hl|].
      intros ->. contradiction. }
    split.
    { split; [exact Hne|]. exists sorted. split; [reflexivity|].
      apply lookup_insert_eq. }
    intros env pageUrl now requestId. rewrite Hkept. reflexivity.
  - assert (Hkept : σ1 !! enrichedViolations = Some xs).
    { rewrite Hframe by exact Hin. exact Ha. }
    split; [exact Hkept|].
    split; [exact Hframe|].
    split; [reflexivity|].
    intros env pageUrl now requestId. reflexivity.
Qed.

Lemma prioritizeRemediations_keeps_input_witness :
  (Store.prioritizeRemediations 1%positive sampleStore).2 !! 1%positive = Some sampleEnriched
  ∧ (∀ l, l ∈ dom sampleStore →
          (Store.prioritizeRemediations 1%positive sampleStore).2 !! l = sampleStore !! l)
  ∧ match (Store.prioritizeRemediations 1%positive sampleStore).1 with
    | Ok prioritized =>
        prioritized ≠ 1%positive
        ∧ ∃ sorted, prioritizeRemediations sampleEnriched = Ok sorted
                    ∧ (Store.prioritizeRemediations 1%positive sampleStore).2 !! prioritized
                      = Some sorted
    | Err e => prioritizeRemediations sampleEnriched = Err e
    end
  ∧ ∀ env pageUrl now requestId,
      (Store.prioritizeThenBuild env pageUrl now requestId 1%positive sampleStore).1
      = (prioritized ← (Store.prioritizeRemediations 1%positive sampleStore).1;
         report ← generateAuditReport env
                     {| scan_url := pageUrl; violations := sampleEnriched;
                        timestamp := now; scan_requestId := requestId |};
         Ok (prioritized, report)).
Proof.
  apply (prioritizeRemediations_keeps_input 1%positive sampleStore sampleEnriched).
  reflexivity.
Defined.

(** Sorting the array itself, without the [slice], would reorder what
    the builder reads. *)
Example sort_without_slice_reorders :
  (Store.sort compareImpact 1%positive sampleStore).2 !! 1%positive
  = Some [ JObj [("id", JStr "a"); ("impact", JStr "critical")];
           JObj [("id", JStr "c"); ("impact", JStr "critical")];
           JObj [("id", JStr "b"); ("impact", JStr "minor")] ].
Proof. reflexivity. Qed.

(** ** Admission *)

Section admission.
Context (cfg : Config).

Lemma purge_recent now stamps :
  Forall (λ t, (now - t ≤ window cfg)%Z) stamps → purge cfg now stamps = stamps.
Proof.
  induction 1 as [|t ts Ht _ IH]; simpl; [reflexivity|].
  destruct (Z.leb_spec (now - t) (window cfg)); [|lia].
  f_equal. exact IH.
Qed.

Lemma purge_expired now stamps :
  Forall (λ t, (t + window cfg < now)%Z) stamps → purge cfg now stamps = [].
Proof.
  induction 1 as [|t ts Ht _ IH]; simpl; [reflexivity|].
  destruct (Z.leb_spec (now - t) (window cfg)); [lia|]. exact IH.
Qed.

Lemma oldest_first t1 rest :
  Forall (λ t, (t1 ≤ t)%Z) rest → oldest (t1 :: rest) = Some t1.
Proof.
  intros H. simpl. f_equal.
  induction H as [|t ts Ht _ IH]; simpl; [reflexivity|]. rewrite IH. lia.
Qed.

(** A request of one client leaves the record of every other client
    as it was. *)
Lemma checkRateLimit_other now c c' (state : gmap string (list Z)) :
  c ≠ c' → (checkRateLimit cfg now c' state).2 !! c = state !! c.
Proof.
  intros Hne. unfold checkRateLimit.
  destruct (limit cfg <=? _)%nat; simpl; apply lookup_insert_ne; congruence.
Qed.

Lemma serve_admits c t1 requests :
  ∀ (state : gmap string (list Z)) pre,
    default [] (state !! c) = pre →
    Forall (λ t, (t1 ≤ t < t1 + window cfg)%Z) (pre ++ requestsOf c requests)%list →
    (length (pre ++ requestsOf c requests)%list ≤ limit cfg)%nat →
    default [] ((serve cfg requests state).2 !! c) = (pre ++ requestsOf c requests)%list
    ∧ Forall (λ p, p.1.1 = c → allowed p.2 = true)
             (combine requests (serve cfg requests state).1).
Proof.
  induction requests as [|[c' now] requests IH]; intros state pre Hpre Hwin Hlen.
  - simpl. rewrite app_nil_r. split; [exact Hpre|constructor].
  - simpl serve.
    destruct (checkRateLimit cfg now c' state) as [d state'] eqn:Hcheck.
    destruct (serve cfg requests state') as [ds state''] eqn:Hserve.
    unfold requestsOf in *. simpl in Hwin, Hlen |- *.
    destruct (String.eqb_spec c' c) as [->|Hne]; simpl in Hwin, Hlen |- *.
    + assert (Hnow : (t1 ≤ now < t1 + window cfg)%Z).
      { apply Forall_app in Hwin as [_ Hw]. apply Forall_inv in Hw. exact Hw. }
      assert (Hrecent : purge cfg now pre = pre).
      { apply purge_recent. apply Forall_app in Hwin as [Hw _].
        eapply Forall_impl; [exact Hw|]. simpl. intros; lia. }
      unfold checkRateLimit in Hcheck. rewrite Hpre, Hrecent in Hcheck.
      rewrite length_app in Hlen. simpl in Hlen.
      destruct (Nat.leb_spec (limit cfg) (length pre)); [lia|].
      injection Hcheck as <- <-.
      destruct (IH (<[c:=(pre ++ [now])%list]> state) (pre ++ [now])%list) as [Hst Hds].
      { rewrite lookup_insert_eq. reflexivity. }
      { rewrite <- app_assoc. exact Hwin. }
      { rewrite <- app_assoc, length_app. simpl. lia. }
      rewrite Hserve in Hst, Hds. simpl in Hst, Hds.
      rewrite <- app_assoc in Hst. split; [exact Hst|].
      constructor; [reflexivity|exact Hds].
    + destruct (IH state' pre) as [Hst Hds]; [| exact Hwin | exact Hlen |].
      { replace state' with (checkRateLimit cfg now c' state).2 by (rewrite Hcheck; reflexivity).
        rewrite checkRateLimit_other by congruence. exact Hpre. }
      rewrite Hserve in Hst, Hds. simpl in Hst, Hds.
      split; [exact Hst|]. constructor; [|exact Hds].
      simpl. intros Heq. contradiction.
Qed.
End admission.

(** C6.  With a limit of [N ≥ 1] requests per window [W]: when a client
    that has no record yet makes [N] requests, interleaved in any way
    with requests of other clients, and an [(N+1)]-th one, all within [W]
    of its first, the first [N] are admitted and the [(N+1)]-th is
    rejected, with [retryAfterSeconds] the (positive) time until the
    first, oldest timestamp leaves the window, and the route answers it
    with 429 carrying that value; and a request the client makes once the
    window has fully elapsed for each of its recorded timestamps is
    admitted. *)
Theorem admission_window (cfg : Config) (c : string) (state : gmap string (list Z))
    (before : list (string * Z)) (t1 : Z) (rest : list Z) (tlast : Z) :
  (1 ≤ limit cfg)%nat →
  state !! c = None →
  requestsOf c before = t1 :: rest →
  length (t1 :: rest) = limit cfg →
  Forall (λ t, (t1 ≤ t < t1 + window cfg)%Z) (rest ++ [tlast])%list →
  let served := serve cfg before state in
  let rejected := checkRateLimit cfg tlast c served.2 in
  Forall (λ p, p.1.1 = c → allowed p.2 = true) (combine before served.1)
  ∧ rejected.1 = {| allowed := false;
                    retryAfterSeconds := (t1 + window cfg - tlast)%Z |}
  ∧ (0 < retryAfterSeconds rejected.1)%Z
  ∧ (gate cfg tlast c served.2).1 = Some (TooManyRequests (t1 + window cfg - tlast)%Z)
  ∧ ∀ now, Forall (λ t, (t + window cfg < now)%Z) (t1 :: rest) →
           allowed (checkRateLimit cfg now c rejected.2).1 = true.
Proof.
  intros Hlimit Hnew Hreq Hlen Hwin served rejected.
  apply Forall_app in Hwin as [Hrest Hlast]. apply Forall_inv in Hlast.
  assert (Hfirst : (t1 ≤ t1 < t1 + window cfg)%Z) by lia.
  destruct (serve_admits cfg c t1 before state []) as [Hst Hds].
  { rewrite Hnew. reflexivity. }
  { simpl. rewrite Hreq. constructor; assumption. }
  { simpl. rewrite Hreq, Hlen. lia. }
  simpl in Hst. rewrite Hreq in Hst. fold served in Hst, Hds.
  assert (Hrecent : purge cfg tlast (t1 :: rest) = t1 :: rest).
  { apply purge_recent. constructor; [lia|].
    eapply Forall_impl; [exact Hrest|]. simpl. intros; lia. }
  assert (Hrej : rejected = ({| allowed := false;
                                retryAfterSeconds := (t1 + window cfg - tlast)%Z |},
                             <[c := t1 :: rest]> served.2)).
  { unfold rejected, checkRateLimit. rewrite Hst, Hrecent, Hlen.
    rewrite Nat.leb_refl. rewrite oldest_first; [reflexivity|].
    eapply Forall_impl; [exact Hrest|]. simpl. intros; lia. }
  split; [exact Hds|]. rewrite Hrej. simpl.
  split; [reflexivity|]. split; [lia|].
  split.
  { unfold gate. fold rejected. rewrite Hrej. reflexivity. }
  intros now Hnow. unfold checkRateLimit. rewrite lookup_insert_eq. simpl default.
  rewrite purge_expired by exact Hnow. simpl length.
  destruct (Nat.leb_spec (limit cfg) 0); [lia|]. reflexivity.
Qed.

Lemma admission_window_witness :
  let served := serve twoPerMinute [("10.0.0.1", 0%Z); ("10.0.0.2", 5%Z); ("10.0.0.1", 10%Z)] ∅ in
  let rejected := checkRateLimit twoPerMinute 59 "10.0.0.1" served.2 in
  Forall (λ p, p.1.1 = "10.0.0.1" → allowed p.2 = true)
         (combine [("10.0.0.1", 0%Z); ("10.0.0.2", 5%Z); ("10.0.0.1", 10%Z)] served.1)
  ∧ rejected.1 = {| allowed := false; retryAfterSeconds := (0 + 60 - 59)%Z |}
  ∧ (0 < retryAfterSeconds rejected.1)%Z
  ∧ (gate twoPerMinute 59 "10.0.0.1" served.2).1 = Some (TooManyRequests (0 + 60 - 59)%Z)
  ∧ ∀ now, Forall (λ t, (t + 60 < now)%Z) [0%Z; 10%Z] →
           allowed (checkRateLimit twoPerMinute now "10.0.0.1" rejected.2).1 = true.
Proof.
  apply (admission_window twoPerMinute "10.0.0.1" ∅
           [("10.0.0.1", 0%Z); ("10.0.0.2", 5%Z); ("10.0.0.1", 10%Z)] 0%Z [10%Z] 59%Z).
  - simpl. lia.
  - reflexivity.
  - reflexivity.
  - reflexivity.
  - repeat constructor; simpl; lia.
Defined.

(** The eleventh request within a minute is rejected, the one after the
    minute has passed is admitted. *)
Example eleventh_request :
  let requests := map (λ t, ("203.0.113.7", Z.of_nat t)) (seq 0 12 ++ [75%nat]) in
  map allowed (serve tenPerMinute requests ∅).1
  = [true; true; true; true; true; true; true; true; true; true; false; false; true]
  ∧ ((serve tenPerMinute requests ∅).1 !! 10%nat)
    = Some {| allowed := false; retryAfterSeconds := 50 |}.
Proof. split; vm_compute; reflexivity. Qed.

(** * Further properties of the route *)

Import Handler.

(** ** Enrichment, beyond the identifier and the impact *)

Lemma prefix_nil s : String.prefix "" s = true.
Proof. destruct s; reflexivity. Qed.

Lemma prefix_cons a w b s :
  String.prefix (String a w) (String b s) = Ascii.eqb a b && String.prefix w s.
Proof.
  cbn [String.prefix]. destruct (ascii_dec a b) as [->|Hne].
  - rewrite Ascii.eqb_refl. reflexivity.
  - apply Ascii.eqb_neq in Hne. rewrite Hne. reflexivity.
Qed.

Lemma prefix_cons_nil a w : String.prefix (String a w) "" = false.
Proof. reflexivity. Qed.

Lemma prefix_wcag_lower s :
  String.prefix "wcag" s = true → String.prefix "wcag" (toLowerCase s) = true.
Proof.
  destruct s as [|a [|b [|c [|d rest]]]];
    rewrite ?prefix_cons, ?prefix_cons_nil, ?andb_false_r; try discriminate.
  intros H. repeat (apply andb_prop in H as [?%Ascii.eqb_eq H]). subst.
  cbn [toLowerCase]. rewrite !prefix_cons, prefix_nil. reflexivity.
Qed.

Lemma prefix_wcag_substring s :
  String.prefix "wcag" (toLowerCase (String.substring 0 4 s))
  = String.prefix "wcag" (toLowerCase s).
Proof.
  destruct s as [|a [|b [|c [|d rest]]]]; try reflexivity.
  cbn [String.substring toLowerCase].
  rewrite !prefix_cons, !prefix_nil. reflexivity.
Qed.


Lemma isWcagTag_wcagWord t :
  stringable t = true → isWcagTag t = Ok (wcagWord t).
Proof.
  unfold stringable, isWcagTag, wcagWord, starts_with_ci.
  destruct (toString t) as [s|]; [|discriminate]. intros _.
  unfold mbind, result_bind. f_equal.
  change (toLowerCase "wcag") with "wcag". change (toLowerCase "WCAG") with "wcag".
  change (String.length "wcag") with 4%nat. change (String.length "WCAG") with 4%nat.
  rewrite prefix_wcag_substring.
  destruct (String.prefix "wcag" (toLowerCase s)) eqn:E; [reflexivity|].
  simpl. destruct (String.prefix "wcag" s) eqn:E'; [|reflexivity].
  apply prefix_wcag_lower in E'. congruence.
Qed.

Lemma filterM_ext {A} (test : A → result bool) (keep : A → bool) l :
  (∀ x, In x l → test x = Ok (keep x)) → filterM test l = Ok (List.filter keep l).
Proof.
  induction l as [|x l IH]; intros Hall; simpl; [reflexivity|].
  rewrite (Hall x (or_introl eq_refl)). simpl.
  rewrite IH by (intros y Hy; apply Hall; right; exact Hy). simpl.
  destruct (keep x); reflexivity.
Qed.

Lemma filterTags_tagList v :
  tagsReadable v = true →
  filterTags (tagsOf v) = Ok (JArr (List.filter wcagWord (tagList v))).
Proof.
  unfold tagsReadable, tagsOf, tagList, firstTruthy. simpl.
  destruct (get v "tags") as [| |b|n|s|items|ps]; simpl; try reflexivity; try discriminate.
  - destruct b; [discriminate|reflexivity].
  - destruct (n =? 0)%Z; [reflexivity|discriminate].
  - destruct (String.eqb s ""); [reflexivity|discriminate].
  - intros Hall. rewrite (filterM_ext isWcagTag wcagWord); [reflexivity|].
    intros x Hx. apply isWcagTag_wcagWord.
    rewrite forallb_forall in Hall. apply Hall, Hx.
Qed.

Lemma filterTags_not_filterable v :
  tagsFilterable v = false → ∃ e, filterTags (tagsOf v) = Err e.
Proof.
  unfold tagsFilterable, tagsOf, firstTruthy. simpl.
  destruct (get v "tags") as [| |b|n|s|items|ps]; simpl; try discriminate.
  - destruct b; [eauto|discriminate].
  - destruct (n =? 0)%Z; [discriminate|simpl; eauto].
  - destruct (String.eqb s ""); [discriminate|simpl; eauto].
  - eauto.
Qed.

(** X1.  On the normal path (records whose [tags] is absent, falsy or an
    array of values that each have a string form, which excludes an
    object with a [toString] property of its own) the enriched [wcag]
    holds, in their order, exactly the source tags whose string form
    begins with [wcag] in any letter case, the
    description is the first truthy one of [description], [help],
    [message] (else the empty string) and the nodes are the first truthy
    one of [nodes], [targets] (else the empty array). *)
Theorem enriched_normal_path (raw : list jsval) :
  Forall (λ v, is_record v = true) raw →
  Forall (λ v, tagsReadable v = true) raw →
  ∃ enriched,
    enrichViolations raw = Ok enriched
    ∧ ∀ idx v, raw !! idx = Some v →
        ∃ e, enriched !! idx = Some e
          ∧ get e "wcag" =
              JArr (List.filter (λ t, match toString t with
                                      | Ok s => String.prefix "wcag" (toLowerCase s)
                                      | Err _ => false
                                      end)
                                (tagList v))
          ∧ get e "description" =
              (if truthy (get v "description") then get v "description"
               else if truthy (get v "help") then get v "help"
               else if truthy (get v "message") then get v "message"
               else JStr "")
          ∧ get e "nodes" =
              (if truthy (get v "nodes") then get v "nodes"
               else if truthy (get v "targets") then get v "targets"
               else JArr []).
Proof.
  intros Hrec Htags. rewrite Forall_lookup in Hrec. rewrite Forall_lookup in Htags.
  destruct (mapi_from_total enrichOne 0 raw) as [enriched Htry].
  { intros j x Hx. rewrite enrichOne_record by eauto.
    rewrite filterTags_tagList by eauto. simpl. eauto. }
  exists enriched. split.
  { unfold enrichViolations, mapi. rewrite Htry. reflexivity. }
  intros idx v Hv.
  destruct (mapi_from_lookup _ _ _ _ _ _ Htry Hv) as (e & He & Hf).
  simpl in Hf. rewrite enrichOne_record in Hf by eauto.
  rewrite filterTags_tagList in Hf by eauto. simpl in Hf. injection Hf as <-.
  eexists. split; [exact He|]. split; [|split].
  - reflexivity.
  - unfold firstTruthy. simpl.
    destruct (truthy (get v "description")); [reflexivity|].
    destruct (truthy (get v "help")); [reflexivity|].
    destruct (truthy (get v "message")); reflexivity.
  - unfold firstTruthy. simpl.
    destruct (truthy (get v "nodes")); [reflexivity|].
    destruct (truthy (get v "targets")); reflexivity.
Qed.

Lemma enriched_normal_path_witness :
  ∃ enriched,
    enrichViolations sampleRaw = Ok enriched
    ∧ ∀ idx v, sampleRaw !! idx = Some v →
        ∃ e, enriched !! idx = Some e
          ∧ get e "wcag" =
              JArr (List.filter (λ t, match toString t with
                                      | Ok s => String.prefix "wcag" (toLowerCase s)
                                      | Err _ => false
                                      end)
                                (tagList v))
          ∧ get e "description" =
              (if truthy (get v "description") then get v "description"
               else if truthy (get v "help") then get v "help"
               else if truthy (get v "message") then get v "message"
               else JStr "")
          ∧ get e "nodes" =
              (if truthy (get v "nodes") then get v "nodes"
               else if truthy (get v "targets") then get v "targets"
               else JArr []).
Proof.
  apply (enriched_normal_path sampleRaw); repeat constructor.
Defined.

Ltac step_binds :=
  repeat (unfold mbind at 1, result_bind at 1;
          match goal with
          | |- match ?m with Ok _ => _ | Err _ => _ end = _ → _ =>
              destruct m; [|discriminate]
          end).

Lemma enrichOne_shape idx v e :
  enrichOne idx v = Ok e →
  get e "raw" = v ∧ is_record e = true ∧ truthy (get e "id") = true
  ∧ get e "aiExplanation" = JUndef.
Proof.
  unfold enrichOne. unfold mbind at 1, result_bind at 1.
  destruct (prop v "id" ||> prop v "ruleId" ||> Ok (JStr ("violation-" +:+ decimal idx)))
    as [id|] eqn:Hid; [|discriminate].
  assert (Ht : truthy id = true).
  { unfold or_else, mbind, result_bind in Hid.
    destruct (prop v "id") as [x|]; [|discriminate].
    destruct (truthy x) eqn:Hx; [congruence|].
    destruct (prop v "ruleId") as [y|]; [|discriminate].
    destruct (truthy y) eqn:Hy; [congruence|].
    injection Hid as <-. reflexivity. }
  step_binds. intros [= <-]. auto.
Qed.

Lemma enrichMinimal_shape idx v e :
  enrichMinimal idx v = Ok e →
  get e "raw" = v ∧ is_record e = true ∧ truthy (get e "id") = true
  ∧ get e "aiExplanation" = JUndef.
Proof.
  unfold enrichMinimal. unfold mbind at 1, result_bind at 1.
  destruct (prop v "id" ||> Ok (JStr ("violation-" +:+ decimal idx)))
    as [id|] eqn:Hid; [|discriminate].
  assert (Ht : truthy id = true).
  { unfold or_else, mbind, result_bind in Hid.
    destruct (prop v "id") as [x|]; [|discriminate].
    destruct (truthy x) eqn:Hx; [congruence|].
    injection Hid as <-. reflexivity. }
  intros [= <-]. auto.
Qed.

Lemma enrichViolations_shape raw enriched :
  enrichViolations raw = Ok enriched →
  length enriched = length raw
  ∧ ∀ idx v, raw !! idx = Some v →
      ∃ e, enriched !! idx = Some e
        ∧ get e "raw" = v ∧ is_record e = true ∧ truthy (get e "id") = true
        ∧ get e "aiExplanation" = JUndef.
Proof.
  unfold enrichViolations, mapi.
  destruct (mapi_from enrichOne 0 raw) as [l|err] eqn:Htry.
  - intros [= <-]. split; [eapply mapi_from_length, Htry|].
    intros idx v Hv.
    destruct (mapi_from_lookup _ _ _ _ _ _ Htry Hv) as (e & He & Hf).
    exists e. split; [exact He|]. eapply enrichOne_shape, Hf.
  - intros Hcatch. split; [eapply mapi_from_length, Hcatch|].
    intros idx v Hv.
    destruct (mapi_from_lookup _ _ _ _ _ _ Hcatch Hv) as (e & He & Hf).
    exists e. split; [exact He|]. eapply enrichMinimal_shape, Hf.
Qed.

(** X2.  Whenever enrichment returns, on either path, the result is
    aligned with the input: same length, and the item at each position is
    an object that keeps the scanner's record of that position,
    unchanged, under [raw]. *)
Theorem enriched_keeps_raw (raw enriched : list jsval) :
  enrichViolations raw = Ok enriched →
  length enriched = length raw
  ∧ ∀ idx v, raw !! idx = Some v →
      ∃ e, enriched !! idx = Some e ∧ is_record e = true ∧ get e "raw" = v.
Proof.
  intros H. apply enrichViolations_shape in H as [Hlen Hitems].
  split; [exact Hlen|]. intros idx v Hv.
  destruct (Hitems idx v Hv) as (e & He & Hraw & Hobj & _). eauto.
Qed.

Lemma enriched_keeps_raw_witness :
  length (imap minimalRecord [JObj [("tags", JNum 7)]]) = length [JObj [("tags", JNum 7)]]
  ∧ ∀ idx v, [JObj [("tags", JNum 7)]] !! idx = Some v →
      ∃ e, imap minimalRecord [JObj [("tags", JNum 7)]] !! idx = Some e
           ∧ is_record e = true ∧ get e "raw" = v.
Proof.
  apply (enriched_keeps_raw [JObj [("tags", JNum 7)]]). reflexivity.
Defined.

Lemma mapi_from_imap {A B} (f : nat → A → result B) (g : nat → A → B) i l :
  (∀ j x, l !! j = Some x → f (i + j) x = Ok (g (i + j) x)) →
  mapi_from f i l = Ok (imap (λ j, g (i + j)) l).
Proof.
  revert i. induction l as [|x l IH]; intros i Hf; simpl; [reflexivity|].
  pose proof (Hf 0%nat x eq_refl) as H0. rewrite Nat.add_0_r in H0. rewrite H0.
  unfold mbind, result_bind.
  rewrite (IH (S i)).
  - rewrite Nat.add_0_r. f_equal. f_equal. apply imap_ext. intros j y _. simpl.
    f_equal. lia.
  - intros j y Hy. replace (S i + j) with (i + S j) by lia. apply Hf. exact Hy.
Qed.

(** X3.  One record whose [tags] is truthy and not an array degrades the
    whole batch: every item, the well-formed ones included, comes out as
    the minimal record of its [id] (the source [id] or
    [violation-<index>], the [ruleId] is not consulted) and [raw]. *)
Theorem enrichment_degrades_whole_batch (raw : list jsval) :
  Forall (λ v, is_record v = true) raw →
  Exists (λ v, tagsFilterable v = false) raw →
  enrichViolations raw = Ok (imap minimalRecord raw).
Proof.
  intros Hrec Hbad. rewrite Forall_lookup in Hrec.
  apply Exists_exists in Hbad as (v & [idx Hv]%list_elem_of_lookup & Hbad).
  destruct (filterTags_not_filterable v Hbad) as [e He].
  destruct (mapi_from_fails enrichOne 0 raw idx v e Hv) as [e' Htry].
  { rewrite enrichOne_record by eauto. rewrite He. reflexivity. }
  unfold enrichViolations, mapi. rewrite Htry.
  apply (mapi_from_imap enrichMinimal minimalRecord 0).
  intros j x Hx. rewrite enrichMinimal_record by eauto.
  unfold minimalRecord, firstTruthy. simpl.
  destruct (truthy (get x "id")); reflexivity.
Qed.

Lemma enrichment_degrades_whole_batch_witness :
  enrichViolations
    [ JObj [("id", JStr "image-alt"); ("impact", JStr "critical")];
      JObj [("ruleId", JStr "label"); ("tags", JStr "wcag2a")] ]
  = Ok (imap minimalRecord
          [ JObj [("id", JStr "image-alt"); ("impact", JStr "critical")];
            JObj [("ruleId", JStr "label"); ("tags", JStr "wcag2a")] ]).
Proof.
  apply enrichment_degrades_whole_batch.
  - repeat constructor.
  - apply Exists_cons_tl, Exists_cons_hd. reflexivity.
Defined.

(** ** Prioritisation on every input *)

Section sort_any.
Context {A : Type} (cmp : A → A → result (option Z)).

Lemma insertBy_perm x s r : insertBy cmp x s = Ok r → Permutation (x :: s) r.
Proof.
  revert r. induction s as [|y ys IH]; intros r; simpl.
  - intros [= <-]. reflexivity.
  - destruct (cmp x y) as [c|]; simpl; [|discriminate].
    destruct (positive_answer c).
    + destruct (insertBy cmp x ys) as [r'|]; simpl; [|discriminate].
      intros [= <-]. rewrite perm_swap. apply perm_skip, IH. reflexivity.
    + intros [= <-]. reflexivity.
Qed.

Lemma sortBy_perm l s : sortBy cmp l = Ok s → Permutation l s.
Proof.
  revert s. induction l as [|x xs IH]; intros s; simpl.
  - intros [= <-]. reflexivity.
  - destruct (sortBy cmp xs) as [s'|]; simpl; [|discriminate].
    intros H. apply insertBy_perm in H. rewrite <- H. apply perm_skip, IH. reflexivity.
Qed.

Lemma insertBy_total x s :
  (∀ y, In y s → ∃ c, cmp x y = Ok c) → ∃ r, insertBy cmp x s = Ok r.
Proof.
  induction s as [|y ys IH]; simpl; intros Hc; [eauto|].
  destruct (Hc y) as [c ->]; [auto|]. simpl.
  destruct (positive_answer c); [|eauto].
  destruct IH as [r ->]; [auto|]. simpl. eauto.
Qed.

Lemma sortBy_total l :
  (∀ x y, In x l → In y l → ∃ c, cmp x y = Ok c) → ∃ s, sortBy cmp l = Ok s.
Proof.
  induction l as [|x xs IH]; simpl; intros Hc; [eauto|].
  destruct IH as [s Hs]; [auto|]. rewrite Hs. simpl.
  apply insertBy_total. intros y Hy. apply Hc; [auto|]. right.
  eapply Permutation_in; [symmetry; eapply sortBy_perm, Hs|exact Hy].
Qed.

Lemma sortBy_fails (bad : A → Prop) l :
  (∀ x y, bad x ∨ bad y → ∃ e, cmp x y = Err e) →
  Exists bad l → (2 ≤ length l)%nat → ∃ e, sortBy cmp l = Err e.
Proof.
  intros Hbad. induction l as [|x xs IH]; simpl; intros Hex Hlen; [lia|].
  destruct (sortBy cmp xs) as [s|e] eqn:Hs; simpl; [|eauto].
  assert (Hperm := sortBy_perm _ _ Hs).
  destruct s as [|y ys].
  { apply Permutation_length in Hperm. simpl in Hperm. lia. }
  simpl.
  assert (Hxy : bad x ∨ bad y).
  { apply Exists_cons in Hex as [Hx|Hxs]; [auto|].
    destruct xs as [|x1 [|x2 xs']].
    - simpl in Hlen. lia.
    - apply Permutation_length_1_inv in Hperm. injection Hperm as -> ->.
      apply Exists_cons in Hxs as [H1|H1]; [auto|]. inversion H1.
    - destruct IH as [e He]; [exact Hxs|simpl; lia|]. congruence. }
  destruct (Hbad x y Hxy) as [e ->]. simpl. eauto.
Qed.
End sort_any.

Lemma impactKey_stringImpact a :
  stringImpact a = true → ∃ k, impactKey a = Ok k.
Proof.
  unfold stringImpact, impactKey, or_else, prop.
  intros [Hn Hi]%andb_prop. apply negb_true_iff in Hn. rewrite Hn.
  unfold mbind, result_bind.
  destruct (get a "impact") as [| |b|n|s|items|ps]; simpl in *; eauto; try discriminate.
  - apply negb_true_iff in Hi. rewrite Hi. simpl. eauto.
  - apply negb_true_iff in Hi. rewrite Hi. simpl. eauto.
  - destruct (negb (String.eqb s "")); simpl; eauto.
Qed.

Lemma impactKey_not_stringImpact a :
  is_record a = true → stringImpact a = false → ∃ e, impactKey a = Err e.
Proof.
  intros Ha. unfold stringImpact, impactKey, or_else.
  rewrite prop_record by exact Ha.
  destruct a; try discriminate. simpl nullish. simpl negb. rewrite andb_true_l.
  unfold mbind, result_bind.
  destruct (get (JObj props) "impact") as [| |b|n|s|items|ps]; simpl; try discriminate;
    eauto.
  - intros ->%negb_false_iff. eauto.
  - intros ->%negb_false_iff. eauto.
Qed.

Lemma compareImpact_total a b :
  stringImpact a = true → stringImpact b = true → ∃ c, compareImpact a b = Ok c.
Proof.
  intros [ka Ha]%impactKey_stringImpact [kb Hb]%impactKey_stringImpact.
  unfold compareImpact. rewrite Ha, Hb. simpl.
  destruct (weightOrDefault (weightLookup ka)), (weightOrDefault (weightLookup kb)); eauto.
Qed.

Lemma compareImpact_throws a b :
  (is_record a = true ∧ stringImpact a = false)
  ∨ (is_record b = true ∧ stringImpact b = false) →
  ∃ e, compareImpact a b = Err e.
Proof.
  intros Hbad. unfold compareImpact.
  destruct (impactKey a) as [ka|ea] eqn:Hka; simpl; [|eauto].
  destruct (impactKey b) as [kb|eb] eqn:Hkb; simpl; [|eauto].
  destruct Hbad as [[Hr H]|[Hr H]].
  - destruct (impactKey_not_stringImpact a Hr H). congruence.
  - destruct (impactKey_not_stringImpact b Hr H). congruence.
Qed.

(** X4.  On every list whose impacts are falsy or strings that do not
    lower-case to a property name of [Object.prototype], the prioritiser
    returns the stable sort by descending weight under the table
    critical 5, serious 4, high 4, moderate 3, low 2, minor 1, read
    without regard to letter case, with 2 for any other impact: a
    permutation of the input, in non-increasing weight, items of equal
    weight in their input order. *)
Theorem prioritize_stable_sort (enriched : list jsval) :
  Forall (λ a, plainImpact a = true) enriched →
  ∃ prioritized,
    prioritizeRemediations enriched = Ok prioritized
    ∧ Permutation enriched prioritized
    ∧ StronglySorted (λ a b, (specWeight b ≤ specWeight a)%Z) prioritized
    ∧ ∀ w, List.filter (λ a, (specWeight a =? w)%Z) prioritized
           = List.filter (λ a, (specWeight a =? w)%Z) enriched.
Proof.
  intros Hplain. exact (prioritizeRemediations_plain enriched Hplain).
Qed.

Lemma prioritize_stable_sort_witness :
  ∃ prioritized,
    prioritizeRemediations sampleEnriched = Ok prioritized
    ∧ Permutation sampleEnriched prioritized
    ∧ StronglySorted (λ a b, (specWeight b ≤ specWeight a)%Z) prioritized
    ∧ ∀ w, List.filter (λ a, (specWeight a =? w)%Z) prioritized
           = List.filter (λ a, (specWeight a =? w)%Z) sampleEnriched.
Proof.
  apply (prioritize_stable_sort sampleEnriched). repeat constructor.
Defined.

(** X5.  Whatever the impacts, inherited property names included, a
    prioritisation that returns has neither lost nor duplicated nor
    invented an item: the result is a permutation of the input. *)
Theorem prioritize_permutes (enriched prioritized : list jsval) :
  prioritizeRemediations enriched = Ok prioritized →
  Permutation enriched prioritized ∧ length prioritized = length enriched.
Proof.
  intros H. apply sortBy_perm in H. split; [exact H|].
  symmetry. apply Permutation_length, H.
Qed.

Lemma prioritize_permutes_witness :
  Permutation minorThenConstructor minorThenConstructor
  ∧ length minorThenConstructor = length minorThenConstructor.
Proof.
  apply (prioritize_permutes minorThenConstructor minorThenConstructor). reflexivity.
Defined.

(** X6.  For two or more enriched objects, prioritisation returns
    exactly when every impact is falsy or a string; a single impact that
    is truthy and not a string (a number, [true], an array, an object)
    makes it throw. *)
Theorem prioritize_returns_iff (enriched : list jsval) :
  Forall (λ a, is_record a = true) enriched →
  (2 ≤ length enriched)%nat →
  (∃ prioritized, prioritizeRemediations enriched = Ok prioritized)
  ↔ Forall (λ a, stringImpact a = true) enriched.
Proof.
  intros Hrec Hlen. split.
  - intros [prioritized Hp]. apply Forall_forall. intros a Ha.
    destruct (stringImpact a) eqn:Hs; [reflexivity|exfalso].
    destruct (sortBy_fails compareImpact
                (λ x, is_record x = true ∧ stringImpact x = false) enriched) as [e He].
    + intros x y Hxy. apply compareImpact_throws, Hxy.
    + apply Exists_exists. exists a. split; [exact Ha|]. split; [|exact Hs].
      rewrite Forall_forall in Hrec. apply Hrec, Ha.
    + exact Hlen.
    + unfold prioritizeRemediations in Hp. congruence.
  - intros Hall. rewrite Forall_forall in Hall. apply sortBy_total.
    intros x y Hx Hy. apply compareImpact_total; apply Hall; apply list_elem_of_In; assumption.
Qed.

Lemma prioritize_returns_iff_witness :
  (∃ prioritized, prioritizeRemediations minorThenConstructor = Ok prioritized)
  ↔ Forall (λ a, stringImpact a = true) minorThenConstructor.
Proof.
  apply (prioritize_returns_iff minorThenConstructor).
  - repeat constructor.
  - simpl. lia.
Defined.

(** ** The report and its validation, in terms of the violations *)

Lemma prop_not_nullish v k : nullish v = false → prop v k = Ok (get v k).
Proof. intros H. unfold prop. rewrite H. reflexivity. Qed.

Lemma or_else_value x y :
  Ok x ||> Ok y = Ok (if truthy x then x else y).
Proof. unfold or_else. simpl. destruct (truthy x); reflexivity. Qed.

Lemma issueOf_shape env idx v issue :
  issueOf env idx v = Ok issue →
  is_record issue = true
  ∧ get issue "id" = (if truthy (get v "id") then get v "id"
                      else JStr ("issue-" +:+ decimal idx))
  ∧ get issue "impact" = (if truthy (get v "impact") then get v "impact"
                          else JStr "moderate")
  ∧ get issue "wcag" = (if truthy (get v "wcag") then get v "wcag" else JArr [])
  ∧ get issue "nodes" = (if truthy (get v "nodes") then get v "nodes" else JArr [])
  ∧ get issue "raw" = (if truthy (get v "raw") then get v "raw" else v)
  ∧ (generateImprovementPlan env = None → get issue "remediation" = JNull)
  ∧ get issue "aiExplanation" = JUndef.
Proof.
  unfold issueOf.
  destruct (nullish v) eqn:Hn.
  { intros H. unfold prop, or_else, mbind, result_bind in H. rewrite Hn in H.
    discriminate H. }
  rewrite (prop_not_nullish v "id"), (prop_not_nullish v "impact"),
    (prop_not_nullish v "wcag"), (prop_not_nullish v "nodes") by exact Hn.
  rewrite !or_else_value.
  replace (prop v "raw" ||> Ok v) with (Ok (if truthy (get v "raw") then get v "raw" else v))
    by (rewrite prop_not_nullish by exact Hn; symmetry; apply or_else_value).
  unfold mbind at 1, result_bind at 1.
  unfold mbind at 1, result_bind at 1.
  match goal with
  | |- match ?m with Ok _ => _ | Err _ => _ end = _ → _ => destruct m; [|discriminate]
  end.
  unfold mbind, result_bind.
  destruct (generateImprovementPlan env) as [plan|].
  - destruct (plan v); [|discriminate]. intros [= <-]. simpl.
    repeat split; try reflexivity. discriminate.
  - intros [= <-]. simpl. repeat split; reflexivity.
Qed.

(** X7.  The issues of a report correspond one to one, in order, to the
    violations it was built from: the issue at each position is an object
    whose [id] is the violation's [id] or, when that is falsy,
    [issue-<index>]; whose [impact] defaults to ["moderate"]; whose [raw]
    is the violation's [raw] or, failing that, the violation itself; and
    whose [remediation] is [null] when the remediation collaborator is
    absent.  The report carries the scan's URL and request identifier,
    and as [scannedAt] the scan's timestamp or, when that is empty, the
    current time. *)
Theorem report_issues_follow_violations (env : Collaborators) (fsr : FullScanResults)
    (report : AuditReport) :
  generateAuditReport env fsr = Ok report →
  length (detailedIssues report) = length (violations fsr)
  ∧ url report = scan_url fsr
  ∧ meta_scannedAt report
    = (if String.eqb (timestamp fsr) "" then isoNow env else timestamp fsr)
  ∧ meta_requestId report = scan_requestId fsr
  ∧ ∀ idx v, violations fsr !! idx = Some v →
      ∃ issue, detailedIssues report !! idx = Some issue
        ∧ is_record issue = true
        ∧ get issue "id" = (if truthy (get v "id") then get v "id"
                            else JStr ("issue-" +:+ decimal idx))
        ∧ get issue "impact" = (if truthy (get v "impact") then get v "impact"
                                else JStr "moderate")
        ∧ get issue "raw" = (if truthy (get v "raw") then get v "raw" else v)
        ∧ (generateImprovementPlan env = None → get issue "remediation" = JNull).
Proof.
  intros Hbuild.
  pose proof (generateAuditReport_fields _ _ _ Hbuild) as (_ & Hmap & _).
  split; [eapply mapi_from_length, Hmap|].
  assert (Hmeta : url report = scan_url fsr
                  ∧ meta_scannedAt report
                    = (if String.eqb (timestamp fsr) "" then isoNow env else timestamp fsr)
                  ∧ meta_requestId report = scan_requestId fsr).
  { unfold generateAuditReport in Hbuild. unfold mbind, result_bind in Hbuild.
    destruct (mapi (issueOf env) (violations fsr)); [|discriminate].
    destruct (generateSummary env) as [summarize|].
    - destruct (summarize _ _); [|discriminate]. injection Hbuild as <-. auto.
    - injection Hbuild as <-. auto. }
  destruct Hmeta as (Hu & Ht & Hr). repeat (split; [assumption|]).
  intros idx v Hv.
  destruct (mapi_from_lookup _ _ _ _ _ _ Hmap Hv) as (issue & Hi & Hf).
  simpl in Hf. apply issueOf_shape in Hf as (Hobj & Hid & Himp & _ & _ & Hraw & Hrem & _).
  exists issue. auto 10.
Qed.

(** Without a timestamp the report is stamped with the current time. *)
Example report_stamped_with_current_time :
  meta_scannedAt <$>
    (match generateAuditReport offline
             {| scan_url := "https://example.com"; violations := [];
                timestamp := ""; scan_requestId := "scan-1-abc" |} with
     | Ok report => Some report
     | Err _ => None
     end)
  = Some "2024-01-01T00:00:01.000Z".
Proof. reflexivity. Qed.

Lemma report_issues_follow_violations_witness :
  length (detailedIssues sampleReport) = length sampleEnriched
  ∧ url sampleReport = "https://example.com"
  ∧ meta_scannedAt sampleReport
    = (if String.eqb (timestamp (sampleScan sampleEnriched)) ""
       then isoNow offline else timestamp (sampleScan sampleEnriched))
  ∧ meta_requestId sampleReport = "scan-1-abc"
  ∧ ∀ idx v, sampleEnriched !! idx = Some v →
      ∃ issue, detailedIssues sampleReport !! idx = Some issue
        ∧ is_record issue = true
        ∧ get issue "id" = (if truthy (get v "id") then get v "id"
                            else JStr ("issue-" +:+ decimal idx))
        ∧ get issue "impact" = (if truthy (get v "impact") then get v "impact"
                                else JStr "moderate")
        ∧ get issue "raw" = (if truthy (get v "raw") then get v "raw" else v)
        ∧ (generateImprovementPlan offline = None → get issue "remediation" = JNull).
Proof.
  apply (report_issues_follow_violations offline (sampleScan sampleEnriched) sampleReport).
  reflexivity.
Defined.

(** X8.  Enrichment followed by report building, on scanner records:
    the issue at each position carries the identifier enrichment chose
    for that position (the [issue-<index>] fallback is never used) and,
    under [raw], the scanner's own record rather than the enriched
    wrapper. *)
Theorem issues_of_enriched (env : Collaborators) (pageUrl now requestId : string)
    (raw enriched : list jsval) (report : AuditReport) :
  Forall (λ v, is_record v = true) raw →
  enrichViolations raw = Ok enriched →
  generateAuditReport env {| scan_url := pageUrl; violations := enriched;
                             timestamp := now; scan_requestId := requestId |} = Ok report →
  length (detailedIssues report) = length raw
  ∧ ∀ idx v, raw !! idx = Some v →
      ∃ e issue, enriched !! idx = Some e
        ∧ detailedIssues report !! idx = Some issue
        ∧ get issue "id" = get e "id"
        ∧ truthy (get issue "id") = true
        ∧ get issue "raw" = v.
Proof.
  intros Hrec Henr Hbuild. rewrite Forall_lookup in Hrec.
  apply enrichViolations_shape in Henr as [Hlen Hitems].
  pose proof (generateAuditReport_fields _ _ _ Hbuild) as (_ & Hmap & _). simpl in Hmap.
  split.
  { rewrite <- Hlen. eapply mapi_from_length, Hmap. }
  intros idx v Hv.
  destruct (Hitems idx v Hv) as (e & He & Hraw & Hobj & Hid & _).
  destruct (mapi_from_lookup _ _ _ _ _ _ Hmap He) as (issue & Hi & Hf).
  simpl in Hf. apply issueOf_shape in Hf as (_ & Hiid & _ & _ & _ & Hiraw & _).
  exists e, issue. split; [exact He|]. split; [exact Hi|].
  rewrite Hid in Hiid. rewrite Hiid. split; [reflexivity|]. split; [exact Hid|].
  rewrite Hiraw, Hraw.
  assert (Hv' : is_record v = true) by eauto.
  destruct v; try discriminate. reflexivity.
Qed.

Lemma issues_of_enriched_witness :
  ∃ enriched report,
    enrichViolations sampleRaw = Ok enriched
    ∧ length (detailedIssues report) = length sampleRaw
    ∧ ∀ idx v, sampleRaw !! idx = Some v →
        ∃ e issue, enriched !! idx = Some e
          ∧ detailedIssues report !! idx = Some issue
          ∧ get issue "id" = get e "id"
          ∧ truthy (get issue "id") = true
          ∧ get issue "raw" = v.
Proof.
  eexists. eexists. split; [reflexivity|].
  eapply (issues_of_enriched offline "https://example.com" "2024-01-01T00:00:00.000Z"
            "scan-1-abc" sampleRaw).
  - repeat constructor.
  - reflexivity.
  - reflexivity.
Defined.

(** X9.  The score falls by 8 with each violation up to twelve and stays
    at 0 from thirteen on: it is 100 only for a report without
    violations and 0 exactly from thirteen violations. *)
Theorem score_saturates (env : Collaborators) (fsr : FullScanResults)
    (report : AuditReport) :
  generateAuditReport env fsr = Ok report →
  let n := Z.of_nat (length (violations fsr)) in
  (n ≤ 12 → accessibilityScore report = 100 - 8 * n)%Z
  ∧ (accessibilityScore report = 0 ↔ 13 ≤ n)%Z
  ∧ (accessibilityScore report = 100 ↔ n = 0)%Z.
Proof.
  intros Hbuild n. apply generateAuditReport_fields in Hbuild as (Hscore & _).
  rewrite Hscore. unfold clamp. fold n. lia.
Qed.

Lemma score_saturates_witness :
  let n := Z.of_nat (length sampleEnriched) in
  (n ≤ 12 → accessibilityScore sampleReport = 100 - 8 * n)%Z
  ∧ (accessibilityScore sampleReport = 0 ↔ 13 ≤ n)%Z
  ∧ (accessibilityScore sampleReport = 100 ↔ n = 0)%Z.
Proof.
  apply (score_saturates offline (sampleScan sampleEnriched) sampleReport). reflexivity.
Defined.

(** X10.  Validation of a built report depends on the number of
    violations alone: the quality is ["good"] up to two violations,
    ["fair"] from three to five and ["poor"] from six on; there is never
    a warning; and the validation issues list, position by position, the
    [id] and [impact] of the report's issues. *)
Theorem quality_by_violation_count (env : Collaborators) (fsr : FullScanResults)
    (report : AuditReport) :
  generateAuditReport env fsr = Ok report →
  ∃ v, validateAuditResults report = Ok v
       ∧ overallQuality v =
           (if (length (violations fsr) <=? 2)%nat then "good"
            else if (length (violations fsr) <=? 5)%nat then "fair" else "poor")
       ∧ warnings v = []
       ∧ length (issues v) = length (violations fsr)
       ∧ ∀ idx issue, detailedIssues report !! idx = Some issue →
           issues v !! idx = Some (JObj [("id", get issue "id");
                                         ("impact", get issue "impact")]).
Proof.
  intros Hbuild.
  destruct (detailedIssues_records _ _ _ Hbuild) as [Hlen Hrec].
  pose proof (generateAuditReport_fields _ _ _ Hbuild) as (Hscore & _).
  rewrite Forall_lookup in Hrec.
  unfold validateAuditResults.
  match goal with
  | |- context [mapi ?f (detailedIssues report)] =>
      pose proof (mapi_from_imap f
                    (λ _ i, JObj [("id", get i "id"); ("impact", get i "impact")])
                    0 (detailedIssues report)) as Hpairs
  end.
  unfold mapi. rewrite Hpairs.
  2:{ intros j x Hx. rewrite !prop_record by eauto. reflexivity. }
  simpl. eexists. split; [reflexivity|]. simpl.
  split; [|split; [reflexivity|split]].
  - rewrite Hscore, Hlen. unfold clamp.
    set (n := length (violations fsr)).
    destruct (Nat.leb_spec n 2), (Nat.leb_spec n 5); try lia;
      repeat match goal with
             | |- context [(?a <=? ?b)%Z] => destruct (Z.leb_spec a b)
             end; try reflexivity; exfalso;
      pose proof (Z.div_mod (Z.of_nat n) 2 ltac:(lia));
      pose proof (Z.mod_pos_bound (Z.of_nat n) 2 ltac:(lia)); lia.
  - rewrite length_imap. exact Hlen.
  - intros idx issue Hi. rewrite list_lookup_imap, Hi. reflexivity.
Qed.

Lemma quality_by_violation_count_witness :
  ∃ v, validateAuditResults sampleReport = Ok v
       ∧ overallQuality v = "fair"
       ∧ warnings v = []
       ∧ length (issues v) = 3%nat
       ∧ ∀ idx issue, detailedIssues sampleReport !! idx = Some issue →
           issues v !! idx = Some (JObj [("id", get issue "id");
                                         ("impact", get issue "impact")]).
Proof.
  apply (quality_by_violation_count offline (sampleScan sampleEnriched) sampleReport).
  reflexivity.
Defined.

(** X11.  The sanity check cannot fail on a report the builder returned:
    it passes, without notes. *)
Theorem sanity_check_passes (env : Collaborators) (fsr : FullScanResults)
    (report : AuditReport) :
  generateAuditReport env fsr = Ok report →
  performSanityCheck report = {| passed := true; notes := [] |}.
Proof.
  intros Hbuild. apply generateAuditReport_fields in Hbuild as (Hscore & _).
  unfold performSanityCheck. rewrite Hscore.
  pose proof (clamp_range 0 100 (100 - 8 * Z.of_nat (length (violations fsr))) ltac:(lia)).
  destruct (Z.leb_spec 0 (clamp 0 100 (100 - 8 * Z.of_nat (length (violations fsr)))));
    [|lia].
  destruct (Z.leb_spec (clamp 0 100 (100 - 8 * Z.of_nat (length (violations fsr)))) 100);
    [|lia].
  reflexivity.
Qed.

Lemma sanity_check_passes_witness :
  performSanityCheck sampleReport = {| passed := true; notes := [] |}.
Proof.
  apply (sanity_check_passes offline (sampleScan sampleEnriched) sampleReport).
  reflexivity.
Defined.

(** ** Annotation and assembly *)

Lemma get_set_assoc_ne k k' v ps : k ≠ k' → assoc k' (set_assoc k v ps) = assoc k' ps.
Proof.
  intros Hne. induction ps as [|[k0 v0] ps IH]; simpl.
  - destruct (String.eqb_spec k' k); [congruence|reflexivity].
  - destruct (String.eqb_spec k k0) as [->|Hk]; simpl.
    + destruct (String.eqb_spec k' k0); [congruence|reflexivity].
    + destruct (String.eqb k' k0); [reflexivity|exact IH].
Qed.

Lemma get_spread_with_ne o k k' v :
  is_record o = true → k ≠ k' → get (spread_with o k v) k' = get o k'.
Proof.
  destruct o; try discriminate. intros _ Hne. simpl. apply get_set_assoc_ne, Hne.
Qed.

Lemma annotate_inv env v v' :
  annotate env v = Ok v' →
  v' = match explainIssue env v with
       | Ok explanation => spread_with v "aiExplanation" explanation
       | Err _ => v
       end.
Proof.
  unfold annotate. destruct (explainIssue env v) as [explanation|e].
  - intros [= <-]. reflexivity.
  - unfold prop. destruct (nullish v); [discriminate|]. simpl.
    destruct (toString (get v "id")); simpl; [|discriminate].
    intros [= <-]. reflexivity.
Qed.

Lemma annotate_total env v :
  (∀ e, explainIssue env v = Err e → loggable v = true) →
  ∃ v', annotate env v = Ok v'.
Proof.
  unfold annotate, loggable, stringable, prop.
  destruct (explainIssue env v) as [explanation|e]; [eauto|].
  intros H. specialize (H e eq_refl).
  destruct (nullish v); [discriminate|]. simpl in H |- *.
  destruct (toString (get v "id")); [|discriminate]. simpl. eauto.
Qed.

Lemma enhanceWithAI_inv env prioritized enhanced :
  enhanceWithAI env prioritized = Ok enhanced →
  length enhanced = length prioritized
  ∧ ∀ idx v, prioritized !! idx = Some v →
      enhanced !! idx
      = Some (if geminiKey env && (idx <? 5)%nat
              then match explainIssue env v with
                   | Ok explanation => spread_with v "aiExplanation" explanation
                   | Err _ => v
                   end
              else v).
Proof.
  unfold enhanceWithAI.
  destruct (geminiKey env); simpl andb; [|intros [= <-]; auto].
  destruct (Nat.ltb_spec 0 (length prioritized)) as [Hpos|Hzero].
  2:{ intros [= <-]. split; [reflexivity|].
      intros idx v Hv. apply lookup_lt_Some in Hv. lia. }
  unfold mapi, mbind, result_bind.
  destruct (mapi_from _ 0 (take 5 prioritized)) as [annotated|e] eqn:Hmap; [|discriminate].
  intros [= <-].
  pose proof (mapi_from_length _ _ _ _ Hmap) as Hlen. rewrite length_take in Hlen.
  split.
  { rewrite length_app, length_drop. lia. }
  intros idx v Hv. pose proof (lookup_lt_Some _ _ _ Hv) as Hidx.
  destruct (Nat.ltb_spec idx 5) as [Hlt|Hge].
  - assert (Htake : take 5 prioritized !! idx = Some v)
      by (rewrite lookup_take_lt by exact Hlt; exact Hv).
    destruct (mapi_from_lookup _ _ _ _ _ _ Hmap Htake) as (v' & Hv' & Hf).
    rewrite lookup_app_l by lia. rewrite Hv'. f_equal.
    apply annotate_inv, Hf.
  - rewrite lookup_app_r by lia. rewrite lookup_drop, <- Hv. f_equal. lia.
Qed.

Lemma enhanceWithAI_total env prioritized :
  (∀ idx v e, (idx < 5)%nat → prioritized !! idx = Some v →
     explainIssue env v = Err e → loggable v = true) →
  ∃ enhanced, enhanceWithAI env prioritized = Ok enhanced.
Proof.
  intros Hlog. unfold enhanceWithAI.
  destruct (geminiKey env && (0 <? length prioritized)%nat); [|eauto].
  unfold mapi.
  destruct (mapi_from_total (λ _ violation, annotate env violation) 0 (take 5 prioritized))
    as [annotated Hmap].
  { intros j x Hj. apply annotate_total. intros e He.
    destruct (Nat.lt_ge_cases j 5) as [Hlt|Hge].
    - rewrite lookup_take_lt in Hj by exact Hlt. eapply Hlog; eassumption.
    - rewrite lookup_take_ge in Hj by exact Hge. discriminate Hj. }
  rewrite Hmap. simpl. eauto.
Qed.

(** X12.  Annotation keeps the list aligned and touches at most its
    first five items, each on its own.  When the log line of a failed
    explanation can be written for each of the first five violations
    (the violation's [id] has a string form), annotation returns a list
    of the same length; the item at a position is the violation with the
    explanation added when a key is configured, the position is below
    five and that violation's explanation call succeeded, and the
    untouched violation in every other case.  The identifier of an
    annotated object is unchanged. *)
Theorem annotation_is_positional (env : Collaborators) (prioritized : list jsval) :
  (∀ idx v e, (idx < 5)%nat → prioritized !! idx = Some v →
     explainIssue env v = Err e → loggable v = true) →
  ∃ enhanced,
    enhanceWithAI env prioritized = Ok enhanced
    ∧ length enhanced = length prioritized
    ∧ ∀ idx v, prioritized !! idx = Some v →
        enhanced !! idx
        = Some (if geminiKey env && (idx <? 5)%nat
                then match explainIssue env v with
                     | Ok explanation => spread_with v "aiExplanation" explanation
                     | Err _ => v
                     end
                else v)
        ∧ (is_record v = true →
           ∀ v', enhanced !! idx = Some v' → get v' "id" = get v "id").
Proof.
  intros Hlog.
  destruct (enhanceWithAI_total env prioritized Hlog) as [enhanced Henh].
  exists enhanced. split; [exact Henh|].
  destruct (enhanceWithAI_inv _ _ _ Henh) as [Hlen Hlookup].
  split; [exact Hlen|].
  intros idx v Hv. specialize (Hlookup idx v Hv).
  split; [exact Hlookup|].
  intros Hrec v'. rewrite Hlookup. intros [= <-].
  destruct (geminiKey env && (idx <? 5)%nat); [|reflexivity].
  destruct (explainIssue env v); [|reflexivity].
  apply get_spread_with_ne; [exact Hrec|discriminate].
Qed.

Lemma annotation_is_positional_witness :
  ∃ enhanced,
    enhanceWithAI failingExplainer sampleEnriched = Ok enhanced
    ∧ length enhanced = length sampleEnriched
    ∧ ∀ idx v, sampleEnriched !! idx = Some v →
        enhanced !! idx
        = Some (if geminiKey failingExplainer && (idx <? 5)%nat
                then match explainIssue failingExplainer v with
                     | Ok explanation => spread_with v "aiExplanation" explanation
                     | Err _ => v
                     end
                else v)
        ∧ (is_record v = true →
           ∀ v', enhanced !! idx = Some v' → get v' "id" = get v "id").
Proof.
  apply (annotation_is_positional failingExplainer sampleEnriched).
  intros idx v e _ Hv _.
  destruct idx as [|[|[|idx]]]; simpl in Hv; try discriminate;
    injection Hv as <-; reflexivity.
Defined.

(** The log line of a failed explanation fails the whole annotation
    when the violation's [id] has no string form. *)
Example annotation_fails_on_unprintable_id :
  enhanceWithAI failingExplainer [unprintableId]
  = Err (TypeError "Cannot convert object to primitive value").
Proof. reflexivity. Qed.

Lemma audit_inv env pageUrl now requestId scanned body :
  audit env pageUrl now requestId scanned = Ok body →
  ∃ enriched prioritized report v enhanced,
    enrichViolations scanned = Ok enriched
    ∧ prioritizeRemediations enriched = Ok prioritized
    ∧ generateAuditReport env {| scan_url := pageUrl; violations := enriched;
                                 timestamp := now; scan_requestId := requestId |} = Ok report
    ∧ validateAuditResults report = Ok v
    ∧ enhanceWithAI env prioritized = Ok enhanced
    ∧ url (auditReport body) = url report
    ∧ accessibilityScore (auditReport body) = accessibilityScore report
    ∧ summary (auditReport body) = summary report
    ∧ detailedIssues (auditReport body) = mergeExplanations (detailedIssues report) enhanced
    ∧ validation_quality body = overallQuality v
    ∧ validation_score body = validationScore v
    ∧ validation_sanityCheck body = performSanityCheck report
    ∧ industryComparison body = generateIndustryComparison report.
Proof.
  unfold audit. unfold mbind, result_bind.
  destruct (enrichViolations scanned) as [enriched|]; [|discriminate].
  destruct (prioritizeRemediations enriched) as [prioritized|] eqn:Hp; [|discriminate].
  destruct (generateAuditReport env _) as [report|] eqn:Hr; [|discriminate].
  destruct (validateAuditResults report) as [v|] eqn:Hv; [|discriminate].
  destruct (enhanceWithAI env prioritized) as [enhanced|] eqn:He; [|discriminate].
  intros [= <-]. exists enriched, prioritized, report, v, enhanced. simpl. auto 15.
Qed.

Lemma merged_issue issues enhanced idx issue' :
  mergeExplanations issues enhanced !! idx = Some issue' →
  ∃ issue, issues !! idx = Some issue
           ∧ issue' = spread_with issue "aiExplanation" (explanationAt enhanced idx).
Proof.
  unfold mergeExplanations. rewrite list_lookup_imap.
  destruct (issues !! idx) as [issue|]; simpl; [|discriminate].
  intros [= <-]. eauto.
Qed.

Lemma explanationAt_cases env prioritized enhanced idx p :
  enhanceWithAI env prioritized = Ok enhanced →
  prioritized !! idx = Some p →
  is_record p = true →
  get p "aiExplanation" = JUndef →
  explanationAt enhanced idx = JUndef
  ∨ ∃ explanation,
      geminiKey env = true ∧ (idx < 5)%nat
      ∧ explainIssue env p = Ok explanation
      ∧ truthy explanation = true
      ∧ explanationAt enhanced idx = explanation.
Proof.
  intros Henh Hp Hobj Hai.
  destruct (enhanceWithAI_inv _ _ _ Henh) as [_ Hall].
  pose proof (Hall idx p Hp) as Hlookup.
  unfold explanationAt. rewrite Hlookup. simpl default.
  destruct (geminiKey env) eqn:Hkey; simpl andb.
  2:{ left. destruct p; try discriminate. simpl in Hai |- *. rewrite Hai. reflexivity. }
  destruct (Nat.ltb_spec idx 5).
  2:{ left. destruct p; try discriminate. simpl in Hai |- *. rewrite Hai. reflexivity. }
  destruct (explainIssue env p) as [explanation|] eqn:Hexp.
  2:{ left. destruct p; try discriminate. simpl in Hai |- *. rewrite Hai. reflexivity. }
  assert (Hn : nullish (spread_with p "aiExplanation" explanation) = false)
    by (destruct p; reflexivity).
  rewrite Hn, get_spread_with.
  destruct (truthy explanation) eqn:Ht; [|auto].
  right. exists explanation. auto.
Qed.

(** X13.  In a successful response at most the first five issues carry
    an explanation, and none does when no key is configured: for every
    other issue [aiExplanation] is [undefined].  An explanation that is
    there is the answer of the explanation collaborator for the violation
    at that position of the prioritised list. *)
Theorem explanations_limited (env : Collaborators) (pageUrl now requestId : string)
    (scanned : list jsval) (body : ScanBody) :
  audit env pageUrl now requestId scanned = Ok body →
  ∃ enriched prioritized,
    enrichViolations scanned = Ok enriched
    ∧ prioritizeRemediations enriched = Ok prioritized
    ∧ ∀ idx issue, detailedIssues (auditReport body) !! idx = Some issue →
        (geminiKey env = false ∨ (5 ≤ idx)%nat → get issue "aiExplanation" = JUndef)
        ∧ (truthy (get issue "aiExplanation") = true →
           ∃ p, prioritized !! idx = Some p
                ∧ explainIssue env p = Ok (get issue "aiExplanation")).
Proof.
  intros Haudit.
  destruct (audit_inv _ _ _ _ _ _ Haudit)
    as (enriched & prioritized & report & v & enhanced & Henr & Hp & _ & _ & Henh
        & _ & _ & _ & Hissues & _).
  exists enriched, prioritized. split; [exact Henr|]. split; [exact Hp|].
  destruct (enrichViolations_shape _ _ Henr) as [_ Hshape].
  assert (Hplain : ∀ i p, prioritized !! i = Some p →
                          is_record p = true ∧ get p "aiExplanation" = JUndef).
  { intros i p Hi. apply sortBy_perm in Hp.
    assert (Hin : p ∈ enriched).
    { rewrite Hp. apply list_elem_of_lookup. eauto. }
    apply list_elem_of_lookup in Hin as [j Hj].
    assert (Hlt : (j < length scanned)%nat).
    { apply enrichViolations_shape in Henr as [<- _]. eapply lookup_lt_Some, Hj. }
    destruct (lookup_lt_is_Some_2 scanned j Hlt) as [s Hs].
    destruct (Hshape j s Hs) as (e & He & _ & Hobj & _ & Hai).
    rewrite Hj in He. injection He as <-. auto. }
  intros idx issue' Hi. rewrite Hissues in Hi.
  apply merged_issue in Hi as (issue & _ & ->). rewrite get_spread_with.
  destruct (prioritized !! idx) as [p|] eqn:Hpi.
  - destruct (Hplain idx p Hpi) as [Hobj Hai].
    destruct (explanationAt_cases env prioritized enhanced idx p Henh Hpi Hobj Hai)
      as [->|(explanation & Hkey & Hlt & Hexp & Ht & ->)].
    + split; [reflexivity|discriminate].
    + split.
      * intros [Hk|Hge]; [congruence|lia].
      * intros _. exists p. split; [reflexivity|exact Hexp].
  - assert (Hnone : enhanced !! idx = None).
    { apply lookup_ge_None. apply lookup_ge_None in Hpi.
      apply enhanceWithAI_inv in Henh as [-> _]. exact Hpi. }
    unfold explanationAt. rewrite Hnone. simpl. split; [reflexivity|discriminate].
Qed.

Lemma explanations_limited_witness :
  ∃ body enriched prioritized,
    audit online "https://example.com" "2024-01-01T00:00:00.000Z" "scan-1-abc"
          minorThenCritical = Ok body
    ∧ enrichViolations minorThenCritical = Ok enriched
    ∧ prioritizeRemediations enriched = Ok prioritized
    ∧ ∀ idx issue, detailedIssues (auditReport body) !! idx = Some issue →
        (geminiKey online = false ∨ (5 ≤ idx)%nat → get issue "aiExplanation" = JUndef)
        ∧ (truthy (get issue "aiExplanation") = true →
           ∃ p, prioritized !! idx = Some p
                ∧ explainIssue online p = Ok (get issue "aiExplanation")).
Proof.
  eexists. 
  destruct (explanations_limited online "https://example.com" "2024-01-01T00:00:00.000Z"
              "scan-1-abc" minorThenCritical _ eq_refl) as (enriched & prioritized & H).
  exists enriched, prioritized. split; [reflexivity|]. exact H.
Defined.

Lemma issue_id_after_merge issue x :
  is_record issue = true → get (spread_with issue "aiExplanation" x) "id" = get issue "id".
Proof. intros H. apply get_spread_with_ne; [exact H|discriminate]. Qed.

(** X14.  When prioritisation leaves the enriched list in its order, the
    merge by position is right: an explanation found on a response issue
    was generated for the violation at that position, and that violation
    has the issue's [id]. *)
Theorem explanations_right_without_reordering (env : Collaborators)
    (pageUrl now requestId : string) (scanned enriched : list jsval) (body : ScanBody) :
  audit env pageUrl now requestId scanned = Ok body →
  enrichViolations scanned = Ok enriched →
  prioritizeRemediations enriched = Ok enriched →
  ∀ idx issue,
    detailedIssues (auditReport body) !! idx = Some issue →
    truthy (get issue "aiExplanation") = true →
    ∃ v, enriched !! idx = Some v
         ∧ get v "id" = get issue "id"
         ∧ explainIssue env v = Ok (get issue "aiExplanation").
Proof.
  intros Haudit Henr Hsame idx issue' Hi Ht.
  destruct (audit_inv _ _ _ _ _ _ Haudit)
    as (enriched' & prioritized & report & v & enhanced & Henr' & Hp & Hbuild & _ & Henh
        & _ & _ & _ & Hissues & _).
  rewrite Henr in Henr'. injection Henr' as <-.
  rewrite Hsame in Hp. injection Hp as <-.
  rewrite Hissues in Hi. apply merged_issue in Hi as (issue & Hissue & ->).
  rewrite get_spread_with in Ht |- *.
  pose proof (generateAuditReport_fields _ _ _ Hbuild) as (_ & Hmap & _). simpl in Hmap.
  assert (Hlt : (idx < length enriched)%nat).
  { rewrite <- (mapi_from_length _ _ _ _ Hmap). eapply lookup_lt_Some, Hissue. }
  destruct (lookup_lt_is_Some_2 enriched idx Hlt) as [e He].
  destruct (mapi_from_lookup _ _ _ _ _ _ Hmap He) as (issue0 & Hi0 & Hf).
  rewrite Hissue in Hi0. injection Hi0 as <-. simpl in Hf.
  apply issueOf_shape in Hf as (Hobj & Hid & _).
  destruct (enrichViolations_shape _ _ Henr) as [Hlen Hshape].
  destruct (lookup_lt_is_Some_2 scanned idx ltac:(lia)) as [s Hs].
  destruct (Hshape idx s Hs) as (e' & He' & _ & Heobj & Heid & Heai).
  rewrite He in He'. injection He' as <-.
  exists e. split; [exact He|]. split.
  - rewrite issue_id_after_merge by exact Hobj. rewrite Hid, Heid. reflexivity.
  - destruct (explanationAt_cases env enriched enhanced idx e Henh He Heobj Heai)
      as [Hnone|(explanation & _ & _ & Hexp & _ & Heq)].
    + rewrite Hnone in Ht. discriminate Ht.
    + rewrite Heq. exact Hexp.
Qed.

Lemma explanations_right_without_reordering_witness :
  ∃ body,
    audit online "https://example.com" "2024-01-01T00:00:00.000Z" "scan-1-abc"
          criticalThenMinor = Ok body
    ∧ ∀ idx issue,
        detailedIssues (auditReport body) !! idx = Some issue →
        truthy (get issue "aiExplanation") = true →
        ∃ v, criticalThenMinor !! idx = Some (get v "raw")
             ∧ get v "id" = get issue "id"
             ∧ explainIssue online v = Ok (get issue "aiExplanation").
Proof.
  eexists. split; [reflexivity|].
  intros idx issue Hi Ht.
  edestruct (explanations_right_without_reordering online "https://example.com"
               "2024-01-01T00:00:00.000Z" "scan-1-abc" criticalThenMinor)
    as (v & Hv & Hid & Hexp); [reflexivity|reflexivity|reflexivity|exact Hi|exact Ht|].
  exists v. split; [|split; assumption].
  destruct idx as [|[|idx]]; simpl in Hv; try discriminate;
    injection Hv as <-; reflexivity.
Defined.

(** X15.  A successful response agrees with the scan it reports: the
    report and the comparison carry the scanned URL, there is one issue
    per scanned violation, the score is [clamp(0, 100, 100 - 8 * N)] for
    the [N] scanned violations, the validation score is that score less
    [floor(N / 2)], clamped, and the sanity check has passed. *)
Theorem response_agrees_with_scan (env : Collaborators) (pageUrl now requestId : string)
    (scanned : list jsval) (body : ScanBody) :
  audit env pageUrl now requestId scanned = Ok body →
  let n := Z.of_nat (length scanned) in
  url (auditReport body) = pageUrl
  ∧ comparison_url (industryComparison body) = pageUrl
  ∧ length (detailedIssues (auditReport body)) = length scanned
  ∧ accessibilityScore (auditReport body) = clamp 0 100 (100 - 8 * n)
  ∧ validation_score body = clamp 0 100 (clamp 0 100 (100 - 8 * n) - n `div` 2)
  ∧ validation_sanityCheck body = {| passed := true; notes := [] |}.
Proof.
  intros Haudit n.
  destruct (audit_inv _ _ _ _ _ _ Haudit)
    as (enriched & prioritized & report & v & enhanced & Henr & Hp & Hbuild & Hv & _
        & Hurl & Hscore & _ & Hissues & _ & Hvs & Hsanity & Hcmp).
  destruct (enrichViolations_shape _ _ Henr) as [Hlen _].
  pose proof (generateAuditReport_fields _ _ _ Hbuild) as (Hacc & Hmap & _).
  simpl in Hacc, Hmap. apply mapi_from_length in Hmap.
  assert (Hrurl : url report = pageUrl).
  { unfold generateAuditReport in Hbuild. unfold mbind, result_bind in Hbuild.
    destruct (mapi _ _); [|discriminate].
    destruct (generateSummary env) as [summarize|].
    - destruct (summarize _ _); [|discriminate]. injection Hbuild as <-. reflexivity.
    - injection Hbuild as <-. reflexivity. }
  split; [congruence|]. split; [rewrite Hcmp; exact Hrurl|].
  split.
  { rewrite Hissues. unfold mergeExplanations. rewrite length_imap. lia. }
  split; [rewrite Hscore, Hacc, Hlen; reflexivity|].
  split.
  - rewrite Hvs. unfold validateAuditResults in Hv. unfold mbind, result_bind in Hv.
    destruct (mapi _ (detailedIssues report)); [|discriminate].
    injection Hv as <-. simpl. rewrite Hacc, Hmap, Hlen. reflexivity.
  - rewrite Hsanity. unfold performSanityCheck. rewrite Hacc.
    pose proof (clamp_range 0 100 (100 - 8 * Z.of_nat (length enriched)) ltac:(lia)).
    destruct (Z.leb_spec 0 (clamp 0 100 (100 - 8 * Z.of_nat (length enriched)))); [|lia].
    destruct (Z.leb_spec (clamp 0 100 (100 - 8 * Z.of_nat (length enriched))) 100); [|lia].
    reflexivity.
Qed.

Lemma response_agrees_with_scan_witness :
  ∃ body,
    audit online "https://example.com" "2024-01-01T00:00:00.000Z" "scan-1-abc"
          minorThenCritical = Ok body
    ∧ url (auditReport body) = "https://example.com"
    ∧ comparison_url (industryComparison body) = "https://example.com"
    ∧ length (detailedIssues (auditReport body)) = 2%nat
    ∧ accessibilityScore (auditReport body) = clamp 0 100 (100 - 8 * 2)
    ∧ validation_score body = clamp 0 100 (clamp 0 100 (100 - 8 * 2) - 2 `div` 2)
    ∧ validation_sanityCheck body = {| passed := true; notes := [] |}.
Proof.
  eexists. split; [reflexivity|].
  apply (response_agrees_with_scan online "https://example.com" "2024-01-01T00:00:00.000Z"
           "scan-1-abc" minorThenCritical).
  reflexivity.
Defined.

(** ** The error field of a failed request *)

Lemma append_nil b : "" +:+ b = b.
Proof. reflexivity. Qed.

Lemma append_cons c a b : String c a +:+ b = String c (a +:+ b).
Proof. reflexivity. Qed.

Lemma prefix_app needle post : String.prefix needle (needle +:+ post) = true.
Proof.
  induction needle as [|c needle IH].
  - apply prefix_nil.
  - rewrite append_cons, prefix_cons, Ascii.eqb_refl. exact IH.
Qed.

Lemma includes_unfold s needle :
  includes s needle =
    String.prefix needle s ||
    match s with
    | EmptyString => false
    | String _ s' => includes s' needle
    end.
Proof. destruct s; reflexivity. Qed.

Lemma includes_app pre needle post : includes (pre +:+ needle +:+ post) needle = true.
Proof.
  induction pre as [|c pre IH].
  - rewrite append_nil, includes_unfold, prefix_app. reflexivity.
  - rewrite append_cons, includes_unfold, IH. apply orb_true_r.
Qed.

Lemma rawErrorMessage_nonempty error : rawErrorMessage error ≠ "".
Proof.
  unfold rawErrorMessage. destruct (get error "message") as [| | | |m| |]; try discriminate.
  destruct (String.eqb_spec m ""); [discriminate|assumption].
Qed.

Lemma errorField_text s :
  s ≠ "" →
  errorField (JStr s)
  = Ok (JStr (if includes s "timeout" || includes s "timed out"
              then timeoutMessage
              else if includes s "ERR_NAME_NOT_RESOLVED" || includes s "ENOTFOUND"
              then notFoundMessage
              else if includes s "ERR_CONNECTION_REFUSED"
              then refusedMessage
              else if includes s "net::ERR" || includes s "ERR::"
              then networkMessage
              else s)).
Proof.
  intros Hs. unfold errorField.
  replace (truthy (JStr s)) with true
    by (simpl; destruct (String.eqb_spec s ""); [contradiction|reflexivity]).
  unfold whenIncluded, either, messageIncludes, mbind, result_bind.
  repeat match goal with
         | |- context [includes s ?sig] => destruct (includes s sig); simpl orb; cbv iota
         end; reflexivity.
Qed.

Lemma errorField_falsy m :
  truthy m = false → errorField m = Ok (JStr "Failed to complete accessibility audit").
Proof.
  intros Hm. unfold errorField. rewrite Hm. reflexivity.
Qed.

(** On a thrown value it can read, the branch answers with the text of
    the chain of tests on the message. *)
Lemma catchBranch_readable error :
  readableError error = true → catchBranch error = ServerError (errorMessageOf error).
Proof.
  unfold readableError, catchBranch, prop. intros H.
  apply andb_prop in H as [Hnull Hmsg]. apply negb_true_iff in Hnull. rewrite Hnull.
  unfold mbind, result_bind.
  assert (Hfalsy : truthy (get error "message") = false →
            errorField (get error "message") = Ok (JStr (errorMessageOf error))).
  { intros Hm. rewrite errorField_falsy by exact Hm.
    unfold errorMessageOf, rawErrorMessage.
    destruct (get error "message") as [| |b|n|m| |]; try reflexivity; try discriminate Hm.
    simpl in Hm. apply negb_false_iff in Hm. rewrite Hm. reflexivity. }
  destruct (truthy (get error "message")) eqn:Ht.
  - destruct (get error "message") as [| |b|n|m| |] eqn:Hget; try discriminate Hmsg;
      try discriminate Ht;
      try (simpl in Hmsg, Ht; rewrite Ht in Hmsg; discriminate Hmsg).
    assert (Hne : m ≠ "").
    { simpl in Ht. destruct (String.eqb_spec m ""); [discriminate Ht|assumption]. }
    rewrite errorField_text by exact Hne.
    unfold errorMessageOf, rawErrorMessage. rewrite Hget.
    destruct (String.eqb_spec m ""); [contradiction|reflexivity].
  - rewrite Hfalsy by reflexivity. reflexivity.
Qed.






(** A message that is an array goes into the 500 answer as it is. *)
Example array_message_is_sent :
  respond offline "https://example.com" "2024-01-01T00:00:00.000Z" "scan-1-abc"
          (Err (JObj [("message", JArr [JStr "a timeout"])]))
  = ServerErrorWith (JArr [JStr "a timeout"])
  ∧ respond offline "https://example.com" "2024-01-01T00:00:00.000Z" "scan-1-abc"
            (Err (JObj [("message", JArr [JStr "timeout"])]))
    = ServerError timeoutMessage.
Proof. split; reflexivity. Qed.

(** A thrown value whose message is a number is not answered at all. *)
Example numeric_message_is_unhandled :
  respond offline "https://example.com" "2024-01-01T00:00:00.000Z" "scan-1-abc"
          (Err (JObj [("message", JNum 404)]))
  = Unhandled (TypeError "errorMessage.includes is not a function").
Proof. reflexivity. Qed.

(** X17.  A thrown message that mentions a timeout, anywhere in its text
    and whatever else it says, is answered with the timeout text. *)
Theorem timeout_takes_precedence (pre post : string) :
  errorMessageOf (Exn (Some (pre +:+ "timeout" +:+ post))) = timeoutMessage
  ∧ errorMessageOf (Exn (Some (pre +:+ "timed out" +:+ post))) = timeoutMessage
  ∧ catchBranch (Exn (Some (pre +:+ "timeout" +:+ post))) = ServerError timeoutMessage
  ∧ catchBranch (Exn (Some (pre +:+ "timed out" +:+ post))) = ServerError timeoutMessage.
Proof.
  assert (Hraw : ∀ word, word ≠ "" →
            rawErrorMessage (Exn (Some (pre +:+ word +:+ post))) = pre +:+ word +:+ post).
  { intros word Hword. unfold rawErrorMessage, Exn, get, assoc.
    rewrite String.eqb_refl.
    destruct (String.eqb (pre +:+ word +:+ post) "") eqn:E; [|reflexivity].
    apply String.eqb_eq in E.
    destruct pre; [|rewrite append_cons in E; discriminate E].
    destruct word; [contradiction|].
    rewrite append_nil, append_cons in E. discriminate E. }
  assert (Hone : errorMessageOf (Exn (Some (pre +:+ "timeout" +:+ post))) = timeoutMessage).
  { unfold errorMessageOf. rewrite Hraw by discriminate.
    rewrite includes_app. reflexivity. }
  assert (Htwo : errorMessageOf (Exn (Some (pre +:+ "timed out" +:+ post))) = timeoutMessage).
  { unfold errorMessageOf. rewrite Hraw by discriminate.
    rewrite (includes_app pre "timed out" post). rewrite orb_true_r. reflexivity. }
  split; [exact Hone|]. split; [exact Htwo|].
  split; rewrite catchBranch_readable by reflexivity; f_equal; assumption.
Qed.

(** ** The request side *)

Lemma list_ascii_of_string_app a b :
  list_ascii_of_string (a +:+ b) = (list_ascii_of_string a ++ list_ascii_of_string b)%list.
Proof.
  induction a as [|c a IH]; [reflexivity|].
  rewrite append_cons. simpl. f_equal. exact IH.
Qed.

Lemma stripWhite_white c l :
  asciiWhite c = true → stripWhite whiteSpace (c :: l) = Some l.
Proof.
  intros H. destruct c as [[] [] [] [] [] [] [] []]; try discriminate H; reflexivity.
Qed.

Lemma stripWhite_white_rev c l :
  asciiWhite c = true → stripWhite (map (@rev ascii) whiteSpace) (c :: l) = Some l.
Proof.
  intros H. destruct c as [[] [] [] [] [] [] [] []]; try discriminate H; reflexivity.
Qed.

Lemma stripWhite_printable c l :
  printable c = true → stripWhite whiteSpace (c :: l) = None.
Proof.
  intros H. destruct c as [[] [] [] [] [] [] [] []]; try discriminate H; reflexivity.
Qed.

Lemma stripWhite_printable_rev c l :
  printable c = true → stripWhite (map (@rev ascii) whiteSpace) (c :: l) = None.
Proof.
  intros H. destruct c as [[] [] [] [] [] [] [] []]; try discriminate H; reflexivity.
Qed.

Section trimming.
Context (ws : list (list ascii)).
Hypothesis strip_white : ∀ c l, asciiWhite c = true → stripWhite ws (c :: l) = Some l.

Lemma trimStartFuel_skip pad rest fuel :
  forallb asciiWhite pad = true →
  (length pad ≤ fuel)%nat →
  stripWhite ws rest = None →
  trimStartFuel ws fuel (pad ++ rest)%list = rest.
Proof.
  revert fuel. induction pad as [|c pad IH]; intros fuel Hpad Hfuel Hrest.
  - simpl. destruct fuel; simpl; [reflexivity|]. rewrite Hrest. reflexivity.
  - simpl in Hpad. apply andb_prop in Hpad as [Hc Hpad].
    destruct fuel as [|fuel]; [simpl in Hfuel; lia|].
    simpl. rewrite strip_white by exact Hc. apply IH; [exact Hpad| |exact Hrest].
    simpl in Hfuel. lia.
Qed.
End trimming.

Lemma trimBytes_blank l :
  forallb asciiWhite l = true → trimEndBytes (trimStartBytes l) = [].
Proof.
  intros Hl. unfold trimStartBytes.
  replace l with (l ++ [])%list at 2 by apply app_nil_r.
  rewrite (trimStartFuel_skip whiteSpace stripWhite_white l (@nil ascii) (length l));
    [reflexivity|exact Hl|lia|reflexivity].
Qed.

Lemma rev_head {A} (c : A) (m : list A) :
  rev (c :: m) = List.last m c :: rev (removelast (c :: m)).
Proof.
  assert (Hne : c :: m ≠ []) by discriminate.
  rewrite (app_removelast_last c Hne) at 1.
  rewrite rev_app_distr. simpl.
  f_equal. destruct m; reflexivity.
Qed.

Lemma forallb_rev {A} (f : A → bool) l : forallb f l = true → forallb f (rev l) = true.
Proof.
  rewrite !forallb_forall. intros H x Hx. apply H. apply in_rev. exact Hx.
Qed.

Lemma trimBytes_padded pad1 c m pad2 :
  forallb asciiWhite pad1 = true → forallb asciiWhite pad2 = true →
  printable c = true → printable (List.last m c) = true →
  trimEndBytes (trimStartBytes (pad1 ++ (c :: m) ++ pad2)%list) = c :: m.
Proof.
  intros H1 H2 Hc Hlast. unfold trimStartBytes.
  rewrite (trimStartFuel_skip whiteSpace stripWhite_white pad1 ((c :: m) ++ pad2)%list).
  - unfold trimEndBytes. rewrite rev_app_distr.
    rewrite (trimStartFuel_skip _ stripWhite_white_rev (rev pad2) (rev (c :: m))).
    + apply rev_involutive.
    + apply forallb_rev, H2.
    + rewrite length_rev, length_app. lia.
    + rewrite rev_head. apply stripWhite_printable_rev, Hlast.
  - exact H1.
  - rewrite length_app. lia.
  - simpl. apply stripWhite_printable, Hc.
Qed.

Lemma trim_blank s : asciiBlank s = true → trim s = "".
Proof.
  intros H. unfold trim. rewrite trimBytes_blank by exact H. reflexivity.
Qed.

Lemma trim_padded pad1 core pad2 :
  asciiBlank pad1 = true → asciiBlank pad2 = true → printableEnds core = true →
  trim (pad1 +:+ core +:+ pad2) = core.
Proof.
  unfold asciiBlank, printableEnds, trim. intros H1 H2 Hcore.
  rewrite !list_ascii_of_string_app.
  destruct (list_ascii_of_string core) as [|c m] eqn:E; [discriminate|].
  apply andb_prop in Hcore as [Hc Hlast].
  rewrite trimBytes_padded by assumption.
  rewrite <- E. apply string_of_list_ascii_of_string.
Qed.

Lemma append_empty_r s : s +:+ "" = s.
Proof. induction s as [|c s IH]; [reflexivity|]. rewrite append_cons, IH. reflexivity. Qed.

Lemma normalizeUrl_scheme s :
  String.prefix "http://" (normalizeUrl s) = true
  ∨ String.prefix "https://" (normalizeUrl s) = true.
Proof.
  unfold normalizeUrl. cbv zeta.
  destruct (String.prefix "http://" (trim s)) eqn:E1; simpl; [auto|].
  destruct (String.prefix "https://" (trim s)) eqn:E2; simpl; [auto|].
  right. apply (prefix_app "https://").
Qed.

Lemma errorMessageOf_nonempty error : errorMessageOf error ≠ "".
Proof.
  destruct (errorMessageOf_cases error) as [[_ Hin]|[_ Heq]].
  - unfold sanitizedMessages in Hin. simpl in Hin.
    destruct Hin as [<-|[<-|[<-|[<-|[]]]]]; discriminate.
  - rewrite Heq. apply rawErrorMessage_nonempty.
Qed.

Lemma padded_nonempty pad1 core pad2 :
  printableEnds core = true → String.eqb (pad1 +:+ core +:+ pad2) "" = false.
Proof.
  intros Hcore. apply String.eqb_neq. intros E.
  apply (f_equal list_ascii_of_string) in E.
  rewrite !list_ascii_of_string_app in E. unfold printableEnds in Hcore.
  destruct (list_ascii_of_string core); [discriminate|].
  destruct (list_ascii_of_string pad1); discriminate E.
Qed.

Lemma admitted_string srv env now requestId s :
  admitted srv env now requestId (Ok (JObj [("url", JStr s)]))
  = (if String.eqb s "" then BadRequest urlRequired
     else if String.eqb (trim s) "" then BadRequest urlRequired
     else if parsesAsUrl srv (normalizeUrl s)
          then Answered (respond env (normalizeUrl s) now requestId
                                 (scanWebsite srv (normalizeUrl s)))
          else BadRequest invalidUrl).
Proof.
  unfold admitted. unfold mbind, result_bind. unfold prop. simpl nullish. cbv iota.
  change (get (JObj [("url", JStr s)]) "url") with (JStr s). simpl truthy.
  destruct (String.eqb s ""); reflexivity.
Qed.

(** X18.  White space around the URL does not matter: for a URL that
    begins and ends with a printable ASCII character, padded on either
    side with ASCII white space, normalisation gives the URL itself when
    it begins with [http://] or [https://] and the URL with [https://] in
    front otherwise, and the request is answered as the unpadded one
    is. *)
Theorem padding_is_ignored (pad1 core pad2 : string) :
  asciiBlank pad1 = true → asciiBlank pad2 = true → printableEnds core = true →
  normalizeUrl (pad1 +:+ core +:+ pad2)
  = (if String.prefix "http://" core || String.prefix "https://" core
     then core else "https://" +:+ core)
  ∧ ∀ srv env now requestId,
      admitted srv env now requestId (Ok (JObj [("url", JStr (pad1 +:+ core +:+ pad2))]))
      = admitted srv env now requestId (Ok (JObj [("url", JStr core)])).
Proof.
  intros H1 H2 Hcore.
  assert (Htrim : trim (pad1 +:+ core +:+ pad2) = core) by (apply trim_padded; assumption).
  assert (Htrim0 : trim core = core).
  { pose proof (trim_padded "" core "" eq_refl eq_refl Hcore) as H.
    rewrite append_nil, append_empty_r in H. exact H. }
  split.
  - unfold normalizeUrl. cbv zeta. rewrite Htrim.
    destruct (String.prefix "http://" core), (String.prefix "https://" core); reflexivity.
  - intros srv env now requestId. rewrite !admitted_string.
    rewrite padded_nonempty by exact Hcore.
    pose proof (padded_nonempty "" core "" Hcore) as Hne.
    rewrite append_nil, append_empty_r in Hne. rewrite Hne.
    unfold normalizeUrl. cbv zeta. rewrite Htrim, Htrim0. reflexivity.
Qed.

Lemma padding_is_ignored_witness :
  normalizeUrl ("  " +:+ "example.com" +:+ " ")
  = (if String.prefix "http://" "example.com" || String.prefix "https://" "example.com"
     then "example.com" else "https://" +:+ "example.com")
  ∧ ∀ srv env now requestId,
      admitted srv env now requestId
               (Ok (JObj [("url", JStr ("  " +:+ "example.com" +:+ " "))]))
      = admitted srv env now requestId (Ok (JObj [("url", JStr "example.com")])).
Proof.
  apply (padding_is_ignored "  " "example.com" " "); reflexivity.
Defined.

(** X19.  A request whose [url] is a string that is not blank reaches
    the parser and the scanner with one URL only, the normalised one,
    which always begins with [http://] or [https://]: the request is
    refused with the invalid-format 400 when the parser rejects that URL
    and is otherwise answered from the scan of that URL, with that URL in
    the report. *)
Theorem scanned_url_is_normalized (srv : Server) (env : Collaborators)
    (now requestId : string) (body : jsval) (s : string) :
  nullish body = false →
  get body "url" = JStr s →
  trim s ≠ "" →
  let u := normalizeUrl s in
  (String.prefix "http://" u = true ∨ String.prefix "https://" u = true)
  ∧ admitted srv env now requestId (Ok body)
    = (if parsesAsUrl srv u
       then Answered (respond env u now requestId (scanWebsite srv u))
       else BadRequest invalidUrl).
Proof.
  intros Hbody Hurl Htrim u. split; [apply normalizeUrl_scheme|].
  unfold admitted. simpl mbind. rewrite prop_not_nullish by exact Hbody. rewrite Hurl.
  assert (Hs : truthy (JStr s) = true).
  { simpl. destruct (String.eqb_spec s "") as [->|]; [|reflexivity].
    exfalso. apply Htrim. reflexivity. }
  rewrite Hs. simpl negb. cbv iota.
  destruct (String.eqb_spec (trim s) ""); [contradiction|]. reflexivity.
Qed.

Lemma scanned_url_is_normalized_witness :
  let u := normalizeUrl "example.com" in
  (String.prefix "http://" u = true ∨ String.prefix "https://" u = true)
  ∧ admitted permissiveServer offline "2024-01-01T00:00:00.000Z" "scan-1-abc"
             (Ok (JObj [("url", JStr "example.com")]))
    = (if parsesAsUrl permissiveServer u
       then Answered (respond offline u "2024-01-01T00:00:00.000Z" "scan-1-abc"
                              (scanWebsite permissiveServer u))
       else BadRequest invalidUrl).
Proof.
  apply (scanned_url_is_normalized permissiveServer offline "2024-01-01T00:00:00.000Z"
           "scan-1-abc" (JObj [("url", JStr "example.com")]) "example.com").
  - reflexivity.
  - reflexivity.
  - vm_compute. discriminate.
Defined.

Example example_com_is_scanned_over_https :
  normalizeUrl "example.com" = "https://example.com"
  ∧ normalizeUrl " http://example.com/a b " = "http://example.com/a b"
  ∧ normalizeUrl "HTTPS://example.com" = "https://HTTPS://example.com".
Proof. repeat split; vm_compute; reflexivity. Qed.

(** X20.  A body that is not [null] and whose [url] is missing, falsy or
    a string of ASCII white space is refused with the 400
    ["URL is required"], whatever the parser, the scanner and the
    collaborators are. *)
Theorem missing_url_is_refused (srv : Server) (env : Collaborators)
    (now requestId : string) (body : jsval) :
  nullish body = false →
  truthy (get body "url") = false
  ∨ (∃ s, get body "url" = JStr s ∧ asciiBlank s = true) →
  admitted srv env now requestId (Ok body) = BadRequest urlRequired.
Proof.
  intros Hbody Hurl. unfold admitted. simpl mbind.
  rewrite prop_not_nullish by exact Hbody.
  destruct Hurl as [Hfalsy|(s & Hs & Hblank)].
  - rewrite Hfalsy. reflexivity.
  - rewrite Hs. destruct (truthy (JStr s)); [|reflexivity]. simpl negb. cbv iota.
    rewrite trim_blank by exact Hblank. reflexivity.
Qed.

Lemma missing_url_is_refused_witness :
  admitted permissiveServer offline "2024-01-01T00:00:00.000Z" "scan-1-abc"
           (Ok (JObj [("url", JStr "   ")])) = BadRequest urlRequired.
Proof.
  apply missing_url_is_refused.
  - reflexivity.
  - right. exists "   ". split; reflexivity.
Defined.

(** X21.  A body that cannot be read (the parser of the body throws an
    [Error], or any value whose message is a string or falsy), a [null]
    body, and a [url] that is truthy without being a string (a number,
    [true], an array, an object) are not answered with a 400: they end
    in the [catch] branch, a 500 with a non-empty [error]. *)
Theorem unreadable_request_is_a_server_error (srv : Server) (env : Collaborators)
    (now requestId : string) (body : result jsval) :
  (∃ e, body = Err e ∧ readableError e = true)
  ∨ (∃ b, body = Ok b
          ∧ (nullish b = true
             ∨ (truthy (get b "url") = true ∧ ∀ s, get b "url" ≠ JStr s))) →
  ∃ text, admitted srv env now requestId body = Answered (ServerError text) ∧ text ≠ "".
Proof.
  intros [(e & -> & Hread)|(b & -> & [Hnull|[Ht Hns]])]; unfold admitted; simpl mbind.
  - cbv iota. rewrite catchBranch_readable by exact Hread.
    eexists. split; [reflexivity|apply errorMessageOf_nonempty].
  - unfold prop. rewrite Hnull. cbv iota. rewrite catchBranch_readable by reflexivity.
    eexists. split; [reflexivity|apply errorMessageOf_nonempty].
  - assert (Hb : nullish b = false).
    { destruct b; try reflexivity; discriminate Ht. }
    rewrite prop_not_nullish by exact Hb. rewrite Ht. simpl negb. cbv iota.
    destruct (get b "url") as [| |x|n|s|items|ps]; try discriminate Ht;
      try (rewrite catchBranch_readable by reflexivity;
           eexists; split; [reflexivity|apply errorMessageOf_nonempty]).
    exfalso. apply (Hns s). reflexivity.
Qed.

(** A thrown value the [catch] branch cannot read is not answered. *)
Example thrown_null_is_unhandled :
  admitted permissiveServer offline "2024-01-01T00:00:00.000Z" "scan-1-abc" (Err JNull)
  = Answered (Unhandled (TypeError "Cannot read properties of null or undefined: message")).
Proof. reflexivity. Qed.

Lemma unreadable_request_is_a_server_error_witness :
  ∃ text,
    admitted permissiveServer offline "2024-01-01T00:00:00.000Z" "scan-1-abc"
             (Ok (JObj [("url", JNum 8080)])) = Answered (ServerError text)
    ∧ text ≠ "".
Proof.
  apply unreadable_request_is_a_server_error.
  right. exists (JObj [("url", JNum 8080)]). split; [reflexivity|].
  right. split; [reflexivity|]. intros s. discriminate.
Defined.

(** X22.  The client identifier used for rate limiting is never empty:
    it is the first non-empty one of the headers [x-forwarded-for],
    [x-client-ip], [cf-connecting-ip], in that order, and ["unknown"]
    when all three are absent or empty, so that all such requests share
    one identifier.  A non-empty [x-forwarded-for] is used whatever the
    other two say; [x-client-ip] is used when [x-forwarded-for] is absent
    or empty, whatever [cf-connecting-ip] says; [cf-connecting-ip] is
    used only when the other two are absent or empty. *)
Theorem client_identifier (headers : string → option string) :
  clientIp headers ≠ ""
  ∧ (∀ v, headers "x-forwarded-for" = Some v → v ≠ "" → clientIp headers = v)
  ∧ (∀ v, blankHeader headers "x-forwarded-for" →
          headers "x-client-ip" = Some v → v ≠ "" → clientIp headers = v)
  ∧ (∀ v, blankHeader headers "x-forwarded-for" → blankHeader headers "x-client-ip" →
          headers "cf-connecting-ip" = Some v → v ≠ "" → clientIp headers = v)
  ∧ ((∀ name, In name ["x-forwarded-for"; "x-client-ip"; "cf-connecting-ip"] →
              headers name = None ∨ headers name = Some "") →
     clientIp headers = "unknown")
  ∧ (clientIp headers = "unknown"
     ∨ ∃ name, In name ["x-forwarded-for"; "x-client-ip"; "cf-connecting-ip"]
               ∧ headers name = Some (clientIp headers)).
Proof.
  unfold clientIp, headerOr, blankHeader. repeat split.
  - destruct (headers "x-forwarded-for") as [a|];
      [destruct (String.eqb_spec a ""); [|assumption]|];
      (destruct (headers "x-client-ip") as [b|];
       [destruct (String.eqb_spec b ""); [|assumption]|]);
      (destruct (headers "cf-connecting-ip") as [c|];
       [destruct (String.eqb_spec c ""); [|assumption]|]); discriminate.
  - intros v -> Hv. destruct (String.eqb_spec v ""); [contradiction|reflexivity].
  - intros v [-> | ->] -> Hv; simpl;
      (destruct (String.eqb_spec v ""); [contradiction|reflexivity]).
  - intros v [-> | ->] [-> | ->] -> Hv; simpl;
      (destruct (String.eqb_spec v ""); [contradiction|reflexivity]).
  - intros Hnone.
    destruct (Hnone "x-forwarded-for") as [->| ->]; [simpl; auto| |];
      (destruct (Hnone "x-client-ip") as [->| ->]; [simpl; auto| |]);
      (destruct (Hnone "cf-connecting-ip") as [->| ->]; [simpl; auto| |]);
      reflexivity.
  - destruct (headers "x-forwarded-for") as [a|] eqn:Ha;
      [destruct (String.eqb_spec a "");
       [|right; exists "x-forwarded-for"; simpl; auto]|];
      (destruct (headers "x-client-ip") as [b|] eqn:Hb;
       [destruct (String.eqb_spec b "");
        [|right; exists "x-client-ip"; simpl; auto]|]);
      (destruct (headers "cf-connecting-ip") as [c|] eqn:Hc;
       [destruct (String.eqb_spec c "");
        [|right; exists "cf-connecting-ip"; simpl; auto]|]); auto.
Qed.

Lemma client_identifier_witness :
  clientIp proxiedHeaders ≠ ""
  ∧ clientIp proxiedHeaders = "198.51.100.7"
  ∧ clientIp (λ name, if String.eqb name "x-forwarded-for" then Some ""
                      else proxiedHeaders name) = "203.0.113.9"
  ∧ clientIp (λ name, if String.eqb name "cf-connecting-ip" then Some "192.0.2.1"
                      else None) = "192.0.2.1"
  ∧ clientIp (λ _, None) = "unknown".
Proof.
  destruct (client_identifier proxiedHeaders) as (Hne & Hforwarded & _).
  split; [exact Hne|].
  split; [apply Hforwarded; [reflexivity|discriminate]|].
  split.
  { destruct (client_identifier
                (λ name, if String.eqb name "x-forwarded-for" then Some ""
                         else proxiedHeaders name)) as (_ & _ & Hclient & _).
    apply Hclient; [right; reflexivity|reflexivity|discriminate]. }
  split.
  { destruct (client_identifier
                (λ name, if String.eqb name "cf-connecting-ip" then Some "192.0.2.1"
                         else None)) as (_ & _ & _ & Hcf & _).
    apply Hcf; [left; reflexivity|left; reflexivity|reflexivity|discriminate]. }
  destruct (client_identifier (λ _, None)) as (_ & _ & _ & _ & Hunknown & _).
  apply Hunknown. intros name _. left. reflexivity.
Defined.

(** ** A scanner record the prioritiser cannot read *)

Section sort_errors.
Context {A : Type} (cmp : A → A → result (option Z)).

Lemma insertBy_error x s e : insertBy cmp x s = Err e → ∃ y, cmp x y = Err e.
Proof.
  induction s as [|y ys IH]; simpl; [discriminate|].
  destruct (cmp x y) as [c|e'] eqn:Hc; simpl.
  - destruct (positive_answer c); [|discriminate].
    destruct (insertBy cmp x ys) as [r|e'] eqn:Hr; simpl; [discriminate|].
    intros [= <-]. apply IH. reflexivity.
  - intros [= <-]. eauto.
Qed.

Lemma sortBy_error l e : sortBy cmp l = Err e → ∃ x y, cmp x y = Err e.
Proof.
  induction l as [|x xs IH]; simpl; [discriminate|].
  destruct (sortBy cmp xs) as [s|e'] eqn:Hs; simpl.
  - intros H. apply insertBy_error in H. eauto.
  - intros [= <-]. apply IH. reflexivity.
Qed.
End sort_errors.

Lemma compareImpact_error a b e : compareImpact a b = Err e → readableError e = true.
Proof.
  assert (Hkey : ∀ x e', impactKey x = Err e' → readableError e' = true).
  { intros x e'. unfold impactKey, or_else, prop, mbind, result_bind.
    destruct (nullish x); [intros [= <-]; reflexivity|].
    destruct (truthy (get x "impact")).
    - destruct (get x "impact"); try discriminate; intros [= <-]; reflexivity.
    - discriminate. }
  unfold compareImpact, mbind, result_bind.
  destruct (impactKey a) as [ka|ea] eqn:Ha; [|intros [= <-]; eapply Hkey, Ha].
  destruct (impactKey b) as [kb|eb] eqn:Hb; [|intros [= <-]; eapply Hkey, Hb].
  destruct (weightOrDefault (weightLookup ka)), (weightOrDefault (weightLookup kb));
    discriminate.
Qed.

Lemma nonStringImpact_enriched idx v e :
  is_record v = true → enrichOne idx v = Ok e → nonStringImpact v = true →
  is_record e = true ∧ stringImpact e = false.
Proof.
  intros Hv He Hbad. apply enrichOne_record_id in He as (Hobj & _ & Himpact); [|exact Hv].
  split; [exact Hobj|]. unfold stringImpact. rewrite Himpact.
  destruct e; try discriminate. simpl nullish. simpl negb. rewrite andb_true_l.
  unfold nonStringImpact in Hbad.
  pose proof (firstTruthy_truthy [get v "impact"; get v "severity"] (JStr "moderate") eq_refl)
    as Ht.
  destruct (firstTruthy [get v "impact"; get v "severity"] (JStr "moderate"));
    try discriminate Hbad; try discriminate Ht; simpl in Ht; rewrite ?Ht; reflexivity.
Qed.

(** X23.  One scanner record whose impact (or, without an impact, whose
    severity) is truthy and not a string fails the whole request: with
    two or more records on the normal enrichment path (every [tags] is
    absent, falsy or an array of values that each have a string form)
    the prioritiser throws, and the answer is a 500 with a non-empty
    [error], although the report itself is built from the enriched list
    and does not need the prioritised one. *)
Theorem non_string_impact_fails_request (env : Collaborators)
    (pageUrl now requestId : string) (scanned : list jsval) :
  Forall (λ v, is_record v = true) scanned →
  Forall (λ v, tagsReadable v = true) scanned →
  (2 ≤ length scanned)%nat →
  Exists (λ v, nonStringImpact v = true) scanned →
  ∃ text, respond env pageUrl now requestId (Ok scanned) = ServerError text ∧ text ≠ "".
Proof.
  intros Hrec Htags Hlen Hbad.
  rewrite Forall_lookup in Hrec. rewrite Forall_lookup in Htags.
  destruct (mapi_from_total enrichOne 0 scanned) as [enriched Htry].
  { intros j x Hx. rewrite enrichOne_record by eauto.
    destruct (filterTags_readable x) as [wcag ->]; [eauto|]. simpl. eauto. }
  assert (Henr : enrichViolations scanned = Ok enriched).
  { unfold enrichViolations, mapi. rewrite Htry. reflexivity. }
  apply Exists_exists in Hbad as (v & [idx Hv]%list_elem_of_lookup & Hbad).
  destruct (mapi_from_lookup _ _ _ _ _ _ Htry Hv) as (e & He & Hf). simpl in Hf.
  destruct (nonStringImpact_enriched idx v e) as [Hobj Hs]; eauto.
  destruct (sortBy_fails compareImpact
              (λ x, is_record x = true ∧ stringImpact x = false) enriched) as [err Herr].
  - intros x y Hxy. apply compareImpact_throws, Hxy.
  - apply Exists_exists. exists e. split; [|auto]. apply list_elem_of_lookup. eauto.
  - rewrite (mapi_from_length _ _ _ _ Htry). exact Hlen.
  - exists (errorMessageOf err). split; [|apply errorMessageOf_nonempty].
    unfold respond, audit. unfold mbind, result_bind. rewrite Henr.
    unfold prioritizeRemediations. rewrite Herr.
    apply catchBranch_readable.
    apply sortBy_error in Herr as (x & y & Hxy). eapply compareImpact_error, Hxy.
Qed.

(** With a tag that has no string form in the batch, the enriched
    records carry no impact, the prioritiser has nothing to trip over,
    and the same numeric impact is answered with a report. *)
Example numeric_impact_hidden_by_unreadable_tag :
  ∃ body,
    respond offline "https://example.com" "2024-01-01T00:00:00.000Z" "scan-1-abc"
            (Ok numericImpactUnreadableTag) = Success body.
Proof. eexists. reflexivity. Qed.

Lemma non_string_impact_fails_request_witness :
  ∃ text,
    respond offline "https://example.com" "2024-01-01T00:00:00.000Z" "scan-1-abc"
            (Ok numericImpact) = ServerError text
    ∧ text ≠ "".
Proof.
  apply non_string_impact_fails_request.
  - repeat constructor.
  - repeat constructor.
  - simpl. lia.
  - apply Exists_cons_hd. reflexivity.
Defined.
